(** * resize-observer-polyfill: the observer instance and its Map shims

    A shallow embedding of
      - [src/utils/assert.js]            ([assert], [assertType]),
      - [src/utils/getWindowOf.js]       ([getWindowOf]),
      - [src/shims/es6-collections.js]   (the array-backed [Shim]),
      - the tag-backed revision of the same module (the [Shim] that tags
        its object keys),
      - [src/ResizeObserverSPI.js]       ([validateMethodCall] and the
        [ResizeObserverSPI] class),
    and the properties of them that the specification states.

    JavaScript objects are mutable: every method is a computation in a
    state-and-exception monad [JS S A], which keeps the state reached when
    an exception is thrown. *)

From stdpp Require Import base option list sorting strings gmap pretty.
From Stdlib Require Import ZArith Lia Ascii.

Local Open Scope string_scope.
Local Open Scope list_scope.
Local Open Scope Z_scope.

(* ===================================================================== *)
(** * JavaScript preliminaries *)
(* ===================================================================== *)

(** The values that are passed around as keys and targets.  Numbers are
    the integers (no key of the program is a fraction or NaN); an object is
    its address, and [===] on two objects is the equality of addresses. *)
Inductive JSValue :=
  | VUndefined
  | VNull
  | VBool (b : bool)
  | VNum (n : Z)
  | VStr (s : string)
  | VObj (o : positive).

Global Instance JSValue_eq_dec : EqDecision JSValue.
Proof. solve_decision. Defined.

(** [a === b] *)
Definition strict_equal (a b : JSValue) : bool := bool_decide (a = b).

Inductive JSType := TUndefined | TObject | TBoolean | TNumber | TString.

Global Instance JSType_eq_dec : EqDecision JSType.
Proof. solve_decision. Defined.

(** [typeof v] *)
Definition typeof (v : JSValue) : JSType :=
  match v with
  | VUndefined => TUndefined
  | VNull | VObj _ => TObject
  | VBool _ => TBoolean
  | VNum _ => TNumber
  | VStr _ => TString
  end.

(** Truthiness of a value, as [if (v)] and [!v] see it. *)
Definition truthy (v : JSValue) : bool :=
  match v with
  | VUndefined | VNull => false
  | VBool b => b
  | VNum n => negb (bool_decide (n = 0))
  | VStr s => negb (bool_decide (s = EmptyString))
  | VObj _ => true
  end.

Inductive JSError :=
  | Error (message : string)
  | TypeError (message : string).

Global Instance JSError_eq_dec : EqDecision JSError.
Proof. solve_decision. Defined.

Definition is_TypeError (e : JSError) : bool :=
  match e with TypeError _ => true | Error _ => false end.

(** The completion of a call: a normal return or a throw. *)
Inductive Res (A : Type) :=
  | Ok (a : A)
  | Throw (e : JSError).
Arguments Ok {A} a.
Arguments Throw {A} e.

Definition is_Ok {A} (r : Res A) : bool :=
  match r with Ok _ => true | Throw _ => false end.

Definition throws_TypeError {A} (r : Res A) : bool :=
  match r with Ok _ => false | Throw e => is_TypeError e end.

(** A computation over the mutable state [S]. *)
Definition JS (S A : Type) : Type := S → Res A * S.

Definition ret {S A} (a : A) : JS S A := λ s, (Ok a, s).
Definition throw {S A} (e : JSError) : JS S A := λ s, (Throw e, s).
Definition bind {S A B} (m : JS S A) (k : A → JS S B) : JS S B :=
  λ s, match m s with
       | (Ok a, s') => k a s'
       | (Throw e, s') => (Throw e, s')
       end.
Definition gets {S A} (f : S → A) : JS S A := λ s, (Ok (f s), s).
Definition modify {S} (f : S → S) : JS S unit := λ s, (Ok tt, f s).

Declare Scope js_scope.
Delimit Scope js_scope with js.
Notation "x <- m ;; k" := (bind m (λ x, k))
  (at level 100, m at next level, right associativity) : js_scope.
Notation "m ;; k" := (bind m (λ _, k))
  (at level 100, right associativity) : js_scope.
Local Open Scope js_scope.

(** Runs [m] on a component of the state: [get] reads the component and
    [put] writes it back, also when [m] throws. *)
Definition zoom {S T A} (get : S → T) (put : T → S → S) (m : JS T A) : JS S A :=
  λ s, let '(r, t) := m (get s) in (r, put t s).

(** [for (x of l) body(x)], stopping at the first throw. *)
Fixpoint for_each {S A} (body : A → JS S unit) (l : list A) : JS S unit :=
  match l with
  | [] => ret tt
  | x :: l' => body x ;; for_each body l'
  end.

(** ** Numbers, as far as [<] on a non-number needs them *)

Inductive JSNumber := NaN | Num (n : Z).

Definition digit_value (c : Ascii.ascii) : option Z :=
  let n := Z.of_N (Ascii.N_of_ascii c) in
  if bool_decide (48 ≤ n ≤ 57) then Some (n - 48) else None.

Fixpoint parse_digits (acc : Z) (s : string) : option Z :=
  match s with
  | EmptyString => Some acc
  | String c s' =>
      match digit_value c with
      | Some d => parse_digits (10 * acc + d) s'
      | None => None
      end
  end.

(** [ToNumber] on a string, for the unsigned decimal integers and the
    empty string; a string with any other character is taken to NaN.  The
    forms of a numeric literal left out here (white space, sign, fraction,
    exponent, radix prefix, [Infinity]) have no comma in them either, and
    a comma is all that [StringToNumber] meets below. *)
Definition StringToNumber (s : string) : JSNumber :=
  match parse_digits 0 s with
  | Some n => Num n
  | None => NaN
  end.

(** [i < n] for a number [i] and the number [n] that the right operand
    converted to: a comparison with NaN is false. *)
Definition less_than (i : Z) (n : JSNumber) : bool :=
  match n with
  | NaN => false
  | Num m => bool_decide (i < m)
  end.

(* ===================================================================== *)
(** * The host *)
(* ===================================================================== *)

(** What the program reads from and writes to outside its own objects.
    - [inextensible]: the objects on which [Object.preventExtensions],
      [seal] or [freeze] was called;
    - [props]: the number-valued own properties of the objects (the only
      properties the program defines are such);
    - [description o]: the string that [o.toString()] returns;
    - [random], [draws]: the sequence of the values of
      [(Math.random() * 16) | 0] and how many of them were drawn. *)
Record Host := mkHost {
  inextensible : gset positive;
  props : gmap (positive * string) Z;
  description : positive → string;
  random : nat → Z;
  draws : nat;
}.

Definition set_props (f : gmap (positive * string) Z → gmap (positive * string) Z)
    (h : Host) : Host :=
  mkHost (inextensible h) (f (props h)) (description h) (random h) (draws h).

Definition set_draws (n : nat) (h : Host) : Host :=
  mkHost (inextensible h) (props h) (description h) (random h) n.

(** [Object.isExtensible(v)]: false on what is not an object. *)
Definition isExtensible (h : Host) (v : JSValue) : bool :=
  match v with
  | VObj o => bool_decide (o ∉ inextensible h)
  | _ => false
  end.

(** [name in v] for an object [v]. *)
Definition has_property (h : Host) (o : positive) (name : string) : bool :=
  bool_decide (is_Some (props h !! (o, name))).

(** [String(v)] as [Array.prototype.join] applies it to an element:
    [undefined] and [null] give the empty string. *)
Definition join_element (h : Host) (v : JSValue) : string :=
  match v with
  | VUndefined | VNull => EmptyString
  | VBool true => "true"
  | VBool false => "false"
  | VNum n => pretty n
  | VStr s => s
  | VObj o => description h o
  end.

(** [v.toString()]: a TypeError on [undefined] and [null], which have no
    properties. *)
Definition toString {S} (h : Host) (v : JSValue) : JS S string :=
  match v with
  | VUndefined | VNull => throw (TypeError "Cannot read properties of undefined or null")
  | _ => ret (join_element h v)
  end.

(** The values a map holds, with the string [String(v)] of each. *)
Class Stringify (V : Type) := stringify : Host → V → string.
Global Instance JSValue_stringify : Stringify JSValue := join_element.

(* ===================================================================== *)
(** * utils/assert.js *)
(* ===================================================================== *)

Definition assert {S} (condition : bool) (errorMessage : string)
    (errorConstructor : string → JSError) : JS S unit :=
  if negb condition then throw (errorConstructor errorMessage) else ret tt.

Definition assertType {S} (condition : bool) (errorMessage : string) : JS S unit :=
  assert condition errorMessage TypeError.

(* ===================================================================== *)
(** * shims/es6-collections.js: the array-backed [Shim] *)
(* ===================================================================== *)

Module ArrayShim.
Section Shim.
Context {V : Type} `{!Stringify V}.

(** [this._entries], an array of [[key, value]] pairs. *)
Record Shim := mkShim { _entries : list (JSValue * V) }.

(** The state a method runs on: the map itself ([this]) and the host. *)
Definition St : Type := Shim * Host.

Definition constructor : Shim := mkShim [].

(** [get size()] *)
Definition size (this : Shim) : Z := Z.of_nat (length (_entries this)).

(** [const [length] = this._entries;] is an array pattern: it binds
    [length] to the first element of [_entries], which is [undefined]
    on the empty array and the pair [[key, value]] otherwise. *)
Definition first_element (this : Shim) : option (JSValue * V) :=
  head (_entries this).

(** The number that [i < length] compares [i] with.  [undefined]
    converts to NaN; an array converts through its [toString], the join
    of its elements with a comma. *)
Definition ToNumber_element (h : Host) (length : option (JSValue * V)) : JSNumber :=
  match length with
  | None => NaN
  | Some (k, v) => StringToNumber (join_element h k +:+ "," +:+ stringify h v)
  end.

(** The body of the loop from index [i] on, for the [n] iterations that
    are left before [i < length] fails. *)
Fixpoint scan (entries : list (JSValue * V)) (key : JSValue) (n : nat) (i : Z)
    : Res Z :=
  match n with
  | O => Ok (-1)
  | S n' =>
      match entries !! Z.to_nat i with
      | None => Throw (TypeError "Cannot read properties of undefined")
      | Some (k, _) =>
          if strict_equal k key then Ok i else scan entries key n' (i + 1)
      end
  end.

Definition _indexOfKey (key : JSValue) : JS St Z :=
  λ s,
    let length := first_element s.1 in
    match ToNumber_element s.2 length with
    | NaN => (Ok (-1), s)
    | Num m => (scan (_entries s.1) key (Z.to_nat m) 0, s)
    end.

Definition entries_ : JS St (list (JSValue * V)) := gets (λ s, _entries s.1).
Definition set_entries (f : list (JSValue * V) → list (JSValue * V)) : JS St unit :=
  modify (λ s, (mkShim (f (_entries s.1)), s.2)).

(** [get(key)]; [None] is [undefined]. *)
Definition get (key : JSValue) : JS St (option V) :=
  index <- _indexOfKey key ;;
  if bool_decide (index ≠ -1) then
    entries <- entries_ ;;
    match entries !! Z.to_nat index with
    | Some entry => ret (Some entry.2)
    | None => throw (TypeError "Cannot read properties of undefined")
    end
  else ret None.

(** [set(key, value)] *)
Definition set (key : JSValue) (value : V) : JS St unit :=
  index <- _indexOfKey key ;;
  if bool_decide (index = -1) then
    set_entries (λ entries, entries ++ [(key, value)])
  else
    entries <- entries_ ;;
    match entries !! Z.to_nat index with
    | Some entry => set_entries (λ entries, <[Z.to_nat index := (entry.1, value)]> entries)
    | None => throw (TypeError "Cannot set properties of undefined")
    end.

(** [delete(key)]; [splice(index, 1)] removes the element at [index]. *)
Definition delete (key : JSValue) : JS St bool :=
  index <- _indexOfKey key ;;
  if bool_decide (index = -1) then ret false
  else
    set_entries (λ entries, base.delete (Z.to_nat index) entries) ;;
    ret true.

(** [has(key)] *)
Definition has (key : JSValue) : JS St bool :=
  index <- _indexOfKey key ;;
  ret (bool_decide (index ≠ -1)).

(** [clear()]: [this._entries.length = 0]. *)
Definition clear : JS St unit := set_entries (λ _, []).

(** [forEach(callback)]: [callback(entry[1], entry[0])] on every entry
    from the first to the last.  The callback runs on a state [S] of
    its own: it does not call back into the map it iterates. *)
Definition forEach {S} (callback : V → JSValue → JS S unit) (this : Shim) : JS S unit :=
  for_each (λ entry, callback entry.2 entry.1) (_entries this).
End Shim.
Global Arguments Shim V : clear implicits.
Global Arguments St V : clear implicits.
End ArrayShim.

(* ===================================================================== *)
(** * Tables that keep the order of insertion *)
(* ===================================================================== *)

(** ** Association lists *)

Module Assoc.
Section Assoc.
Context {K A : Type} `{!EqDecision K}.

Fixpoint get (o : list (K * A)) (name : K) : option A :=
  match o with
  | [] => None
  | (n, a) :: o' => if bool_decide (n = name) then Some a else get o' name
  end.

Definition mem (o : list (K * A)) (name : K) : bool :=
  bool_decide (is_Some (get o name)).

(** An entry that exists keeps its place; a new one goes last. *)
Fixpoint assign (o : list (K * A)) (name : K) (a : A) : list (K * A) :=
  match o with
  | [] => [(name, a)]
  | (n, b) :: o' =>
      if bool_decide (n = name) then (n, a) :: o' else (n, b) :: assign o' name a
  end.

Fixpoint remove (o : list (K * A)) (name : K) : list (K * A) :=
  match o with
  | [] => []
  | (n, b) :: o' =>
      if bool_decide (n = name) then o' else (n, b) :: remove o' name
  end.
End Assoc.
End Assoc.

(** ** An object used as a table of string-named properties *)

Module Obj.
Section Obj.
Context {A : Type}.

(** The properties in the order of their creation. *)
Definition t : Type := list (string * A).

(** [o[name]] *)
Definition get (o : t) (name : string) : option A := Assoc.get o name.

(** [name in o] *)
Definition mem (o : t) (name : string) : bool := Assoc.mem o name.

(** [o[name] = a]: a property that exists keeps its place. *)
Definition assign (o : t) (name : string) (a : A) : t := Assoc.assign o name a.

(** [delete o[name]] *)
Definition remove (o : t) (name : string) : t := Assoc.remove o name.

(** A property name is an array index when it is the decimal numeral
    of an integer below [2^32 - 1]. *)
Definition array_index (name : string) : option Z :=
  match name with
  | EmptyString => None
  | _ =>
      match parse_digits 0 name with
      | Some n =>
          if bool_decide (pretty n = name) && bool_decide (n < 2 ^ 32 - 1)
          then Some n else None
      | None => None
      end
  end.

Definition index_le (a b : Z * (string * A)) : Prop := a.1 ≤ b.1.
Global Instance index_le_dec a b : Decision (index_le a b).
Proof. unfold index_le. apply _. Defined.

Definition index_entries (o : t) : list (Z * (string * A)) :=
  omap (λ p, i ← array_index p.1; Some (i, p)) o.

(** The order in which [for (const name in o)] visits the properties:
    the array indices in ascending order, then the other names in the
    order of their creation. *)
Definition for_in (o : t) : list (string * A) :=
  (snd <$> merge_sort index_le (index_entries o))
  ++ filter (λ p, array_index p.1 = None) o.
End Obj.
Global Arguments t A : clear implicits.
End Obj.

(* ===================================================================== *)
(** * shims/es6-collections.js, the tag-backed revision of [Shim] *)
(* ===================================================================== *)

Module TagShim.

Definition tagPrefix : string := "__ResizeObserverPolyfill_Map__".

Definition template : string := "xxxxxxxx-xxxx-4xxx-yxxx-xxxxxxxxxxxx".

(** [v.toString(16)] for [0 <= v < 16]. *)
Definition hex_digit (v : Z) : string :=
  String (Ascii.ascii_of_N (Z.to_N (if bool_decide (v < 10) then 48 + v else 87 + v)))
         EmptyString.

(** The draw [(Math.random() * 16) | 0], an integer of [[0, 16)]. *)
Definition draw : JS Host Z :=
  λ h, (Ok (random h (draws h) `mod` 16), set_draws (S (draws h)) h).

(** The replacement of one character of the template. *)
Definition replace_char (c : Ascii.ascii) : JS Host string :=
  if bool_decide (c = "x"%char) || bool_decide (c = "y"%char) then
    r <- draw ;;
    let v := if bool_decide (c = "x"%char) then r else Z.lor (Z.land r 3) 8 in
    ret (hex_digit v)
  else ret (String c EmptyString).

Fixpoint replace_xy (s : string) : JS Host string :=
  match s with
  | EmptyString => ret EmptyString
  | String c s' =>
      d <- replace_char c ;;
      rest <- replace_xy s' ;;
      ret (d +:+ rest)
  end.

Definition generateTag : JS Host string :=
  uuid <- replace_xy template ;;
  ret (tagPrefix +:+ uuid).

(** [x | 0] *)
Definition ToInt32 (x : Z) : Z := (x + 2 ^ 31) `mod` 2 ^ 32 - 2 ^ 31.

Section Shim.
Context {V : Type}.

Record Shim := mkShim {
  entries_ : Obj.t (JSValue * V);
  tag_ : string;
  size_ : Z;
  id_ : Z;
}.

Definition St : Type := Shim * Host.

Definition this : JS St Shim := gets fst.
Definition host : JS St Host := gets snd.
Definition on_host {A} (m : JS Host A) : JS St A :=
  zoom snd (λ h s, (s.1, h)) m.
Definition set_entries (f : Obj.t (JSValue * V) → Obj.t (JSValue * V)) : JS St unit :=
  modify (λ s, (mkShim (f (entries_ s.1)) (tag_ s.1) (size_ s.1) (id_ s.1), s.2)).
Definition set_size (f : Z → Z) : JS St unit :=
  modify (λ s, (mkShim (entries_ s.1) (tag_ s.1) (f (size_ s.1)) (id_ s.1), s.2)).
Definition set_id (f : Z → Z) : JS St unit :=
  modify (λ s, (mkShim (entries_ s.1) (tag_ s.1) (size_ s.1) (f (id_ s.1)), s.2)).

(** [clear()] *)
Definition clear : JS St unit :=
  modify (λ s, (mkShim [] (tag_ s.1) 0 0, s.2)) ;;
  tag <- on_host generateTag ;;
  modify (λ s, (mkShim (entries_ s.1) tag (size_ s.1) (id_ s.1), s.2)).

(** [new Shim()]: the fields are declared, then [this.clear()] sets
    them. *)
Definition constructor : JS Host Shim :=
  λ h, let '(r, s) := clear (mkShim [] EmptyString 0 0, h) in
       (match r with Ok _ => Ok s.1 | Throw e => Throw e end, s.2).

(** [get size()] *)
Definition size (m : Shim) : Z := size_ m.

(** [insert_(key, value)] *)
Definition insert_ (key : JSValue) (value : V) : JS St unit :=
  h <- host ;;
  tag <- toString h key ;;
  tag <-
    (if bool_decide (typeof key = TObject) then
       assertType (isExtensible h key)
         "Cannot use inextensible object as keys with MapShim!" ;;
       m <- this ;;
       let id := ToInt32 (id_ m) in
       (match key with
        | VObj o => modify (λ s, (s.1, set_props (<[(o, tag_ m) := id]>) s.2))
        | _ => ret tt
        end) ;;
       ret (tag_ m +:+ pretty id)
     else
       assertType (negb (String.prefix tagPrefix tag))
         "Cannot use primitive that stringifies to a value prefixed by MapShim's tag prefix!" ;;
       ret tag) ;;
  set_entries (λ entries, Obj.assign entries tag (key, value)) ;;
  set_size (λ n, n + 1) ;;
  set_id (λ n, n + 1).

(** [getTag_(key)]; [None] is [undefined]. *)
Definition getTag_ (key : JSValue) : JS St (option string) :=
  h <- host ;;
  m <- this ;;
  if bool_decide (typeof key = TObject) then
    match key with
    | VObj o =>
        if isExtensible h key && has_property h o (tag_ m) then
          ret ((λ id : Z, tag_ m +:+ pretty id) <$> props h !! (o, tag_ m))
        else ret None
    | _ => ret None
    end
  else
    tag <- toString h key ;;
    ret (Some tag).

(** [exists_(tag)]: the value of [tag && tag in this.entries_], which
    is [tag] itself when [tag] is falsy. *)
Definition exists_ (tag : option string) : JS St JSValue :=
  m <- this ;;
  match tag with
  | None => ret VUndefined
  | Some t =>
      if bool_decide (t = EmptyString) then ret (VStr EmptyString)
      else ret (VBool (Obj.mem (entries_ m) t))
  end.

(** [this.entries_[tag]] where [exists_(tag)] was truthy. *)
Definition entry_at (tag : option string) : JS St (JSValue * V) :=
  m <- this ;;
  match tag ≫= Obj.get (entries_ m) with
  | Some entry => ret entry
  | None => throw (TypeError "Cannot read properties of undefined")
  end.

(** [get(key)] *)
Definition get (key : JSValue) : JS St (option V) :=
  tag <- getTag_ key ;;
  found <- exists_ tag ;;
  if truthy found then
    entry <- entry_at tag ;;
    ret (Some entry.2)
  else ret None.

(** [set(key, value)] *)
Definition set (key : JSValue) (value : V) : JS St unit :=
  tag <- getTag_ key ;;
  found <- exists_ tag ;;
  if truthy found then
    entry <- entry_at tag ;;
    set_entries (λ entries, Obj.assign entries (default EmptyString tag) (entry.1, value))
  else insert_ key value.

(** [delete(key)] *)
Definition delete (key : JSValue) : JS St bool :=
  tag <- getTag_ key ;;
  found <- exists_ tag ;;
  if negb (truthy found) then ret false
  else
    set_entries (λ entries, Obj.remove entries (default EmptyString tag)) ;;
    m <- this ;;
    (match key with
     | VObj o => modify (λ s, (s.1, set_props (base.delete (o, tag_ m)) s.2))
     | _ => ret tt
     end) ;;
    set_size (λ n, n - 1) ;;
    ret true.

(** [has(key)]: the value of [exists_], not always a boolean. *)
Definition has (key : JSValue) : JS St JSValue :=
  tag <- getTag_ key ;;
  exists_ tag.

(** [forEach(callback)]; the callback does not call back into the
    map. *)
Definition forEach {S} (callback : V → JSValue → JS S unit) (m : Shim) : JS S unit :=
  for_each (λ p : string * (JSValue * V), callback p.2.2 p.2.1) (Obj.for_in (entries_ m)).
End Shim.
Global Arguments Shim V : clear implicits.
Global Arguments St V : clear implicits.
End TagShim.

(* ===================================================================== *)
(** * The [Map] that [ResizeObserverSPI.js] imports *)
(* ===================================================================== *)

(** ** The built-in [Map] of the host

    The entries in insertion order; a key is found by [SameValueZero],
    which on the values of [JSValue] is [===]. *)
Module NativeMap.
Section Map.
Context {V : Type}.

Record Map := mkMap { MapData : list (JSValue * V) }.

Definition St : Type := Map * Host.

Definition constructor : Map := mkMap [].
Definition size (m : Map) : Z := Z.of_nat (length (MapData m)).
Definition get (key : JSValue) : JS St (option V) :=
  gets (λ s, Assoc.get (MapData s.1) key).
Definition has (key : JSValue) : JS St bool :=
  gets (λ s, Assoc.mem (MapData s.1) key).
Definition set (key : JSValue) (value : V) : JS St unit :=
  modify (λ s, (mkMap (Assoc.assign (MapData s.1) key value), s.2)).
Definition delete (key : JSValue) : JS St bool :=
  found <- has key ;;
  modify (λ s, (mkMap (Assoc.remove (MapData s.1) key), s.2)) ;;
  ret found.
Definition clear : JS St unit := modify (λ s, (mkMap [], s.2)).
Definition forEach {S} (callback : V → JSValue → JS S unit) (m : Map) : JS S unit :=
  for_each (λ entry, callback entry.2 entry.1) (MapData m).
End Map.
Global Arguments Map V : clear implicits.
Global Arguments St V : clear implicits.
End NativeMap.

(** ** The interface of a map, as [ResizeObserverSPI] uses it

    [Map_has] is the truthiness of what [has] returns: the observer only
    branches on it. *)
Class MapImpl (V M : Type) := {
  Map_new : JS Host M;
  Map_size : M → Z;
  Map_has : JSValue → JS (M * Host) bool;
  Map_set : JSValue → V → JS (M * Host) unit;
  Map_delete : JSValue → JS (M * Host) bool;
  Map_clear : JS (M * Host) unit;
  Map_forEach : ∀ {S}, (V → JSValue → JS S unit) → M → JS S unit;
}.
Global Arguments Map_forEach {V M _ S} callback m.

(** ** [MapShim] of the array-backed module

    [MapShim] is the built-in [Map] where [typeof Map !== 'undefined'] and
    the class [Shim] elsewhere. *)
Module Es6Collections.
Section MapShim.
Context {V : Type} `{!Stringify V}.

Inductive MapShim :=
  | Native (m : NativeMap.Map V)
  | Shimmed (m : ArrayShim.Shim V).

(** [new MapShim()], given [typeof Map !== 'undefined']. *)
Definition construct (Map_defined : bool) : MapShim :=
  if Map_defined then Native NativeMap.constructor
  else Shimmed ArrayShim.constructor.

(** A method call on [this]: the method of the class [this] is of. *)
Definition method {A} (native : JS (NativeMap.St V) A) (shim : JS (ArrayShim.St V) A)
    : JS (MapShim * Host) A :=
  λ s, match s.1 with
       | Native m => let '(r, (m', h')) := native (m, s.2) in (r, (Native m', h'))
       | Shimmed m => let '(r, (m', h')) := shim (m, s.2) in (r, (Shimmed m', h'))
       end.

Definition size (m : MapShim) : Z :=
  match m with
  | Native m => NativeMap.size m
  | Shimmed m => ArrayShim.size m
  end.
Definition get (key : JSValue) := method (NativeMap.get key) (ArrayShim.get key).
Definition has (key : JSValue) := method (NativeMap.has key) (ArrayShim.has key).
Definition set (key : JSValue) (value : V) :=
  method (NativeMap.set key value) (ArrayShim.set key value).
Definition delete (key : JSValue) := method (NativeMap.delete key) (ArrayShim.delete key).
Definition clear := method NativeMap.clear ArrayShim.clear.
Definition forEach {S} (callback : V → JSValue → JS S unit) (m : MapShim) : JS S unit :=
  match m with
  | Native m => NativeMap.forEach callback m
  | Shimmed m => ArrayShim.forEach callback m
  end.

(** The keys in the order [forEach] visits them. *)
Definition keys (m : MapShim) : list JSValue :=
  match m with
  | Native m => (NativeMap.MapData m).*1
  | Shimmed m => (ArrayShim._entries m).*1
  end.

Definition impl (Map_defined : bool) : MapImpl V MapShim := {|
  Map_new := ret (construct Map_defined);
  Map_size := size;
  Map_has := has;
  Map_set := set;
  Map_delete := delete;
  Map_clear := clear;
  Map_forEach := @forEach;
|}.
End MapShim.
Global Arguments MapShim V : clear implicits.
End Es6Collections.

(** ** The tag-backed [Shim] as the map of the observer *)
Definition TagShim_impl {V : Type} : MapImpl V (TagShim.Shim V) := {|
  Map_new := TagShim.constructor;
  Map_size := TagShim.size;
  Map_has := λ key, (found <- TagShim.has key ;; ret (truthy found));
  Map_set := TagShim.set;
  Map_delete := TagShim.delete;
  Map_clear := TagShim.clear;
  Map_forEach := @TagShim.forEach V;
|}.

(* ===================================================================== *)
(** * The collaborators of the observer *)
(* ===================================================================== *)

(** ** The environment the modules are loaded in

    - [Map_defined]: [typeof Map !== 'undefined'];
    - [global]: the global object that [shims/global.js] resolves;
    - [defaultView o]: [o.ownerDocument.defaultView] where [o] has an
      owner document with a window;
    - [Element w]: the constructor [w.Element] of a window, given by the
      objects that are instances of it, where [w] defines one. *)
Definition Window : Type := nat.

Record Env := mkEnv {
  Map_defined : bool;
  global : Window;
  defaultView : positive → option Window;
  Element : Window → option (positive → bool);
}.

(** [v instanceof C]: a TypeError where [C] is not callable; false on what
    is not an object. *)
Definition instanceof {S} (v : JSValue) (C : option (positive → bool)) : JS S bool :=
  match C with
  | None => throw (TypeError "Right-hand side of instanceof is not callable")
  | Some instances =>
      ret (match v with VObj o => instances o | _ => false end)
  end.

(** ** utils/getWindowOf.js *)
Definition getWindowOf (env : Env) (target : JSValue) : Window :=
  let ownerGlobal :=
    if truthy target then
      match target with
      | VObj o => defaultView env o
      | _ => None
      end
    else None in
  default (global env) ownerGlobal.

(** ** Boxes and observations *)

(** The content rectangle of a target; the two numbers are compared
    exactly. *)
Record Box := mkBox { width : Z; height : Z }.

Global Instance Box_eq_dec : EqDecision Box.
Proof. solve_decision. Defined.

(** A reference to a [ResizeObservation] object. *)
Inductive ObsRef := Ref (n : nat).

Global Instance ObsRef_eq_dec : EqDecision ObsRef.
Proof. solve_decision. Defined.

Definition ref_index (r : ObsRef) : nat := match r with Ref n => n end.

(** [String(observation)]: the class does not override [toString]. *)
Global Instance ObsRef_stringify : Stringify ObsRef := λ _ _, "[object Object]".

(** Modelled from the spec: [ResizeObservation.js] is not among the
    sources.  An observation holds its target and the box it broadcast
    last, [None] for the value that is no box. *)
Record ResizeObservation := mkObservation {
  target : JSValue;
  broadcastedBox : option Box;
}.

(** [new ResizeObserverEntry(target, rect)] *)
Record ResizeObserverEntry := mkEntry {
  entry_target : JSValue;
  contentRect : Box;
}.

(** Modelled from the spec: [ResizeObserverController.js] is not among
    the sources.  The controller holds the instances that are registered
    with it, each once, and the refreshes that were requested of it. *)
Record Controller := mkController {
  observers : list positive;
  refreshes : nat;
}.

Module ResizeObserverController.
Definition addObserver (observer : positive) (c : Controller) : Controller :=
  if bool_decide (observer ∈ observers c) then c
  else mkController (observers c ++ [observer]) (refreshes c).

Definition removeObserver (observer : positive) (c : Controller) : Controller :=
  mkController (filter (λ o, o ≠ observer) (observers c)) (refreshes c).

Definition refresh (c : Controller) : Controller :=
  mkController (observers c) (S (refreshes c)).

Definition registered (observer : positive) (c : Controller) : bool :=
  bool_decide (observer ∈ observers c).
End ResizeObserverController.

(* ===================================================================== *)
(** * ResizeObserverSPI.js *)
(* ===================================================================== *)

Module ResizeObserverSPI.
Section SPI.
Context {M : Type} (Map : MapImpl ObsRef M).
Context (env : Env).

(** The state the methods of one instance run on.
    - [self]: the identity of the instance ([this]);
    - [activeObservations_], [observations_], [controller_]: its fields;
    - [heap n]: the observation that [Ref n] refers to, [allocated]
      the number of the observations created;
    - [layout]: the box of every target at present;
    - [host_]: the host. *)
Record World := mkWorld {
  self : positive;
  activeObservations_ : list ObsRef;
  observations_ : M;
  controller_ : Controller;
  heap : nat → ResizeObservation;
  allocated : nat;
  layout : JSValue → Box;
  host_ : Host;
}.

Definition set_active (f : list ObsRef → list ObsRef) (w : World) : World :=
  mkWorld (self w) (f (activeObservations_ w)) (observations_ w) (controller_ w)
          (heap w) (allocated w) (layout w) (host_ w).
Definition set_map (s : M * Host) (w : World) : World :=
  mkWorld (self w) (activeObservations_ w) s.1 (controller_ w)
          (heap w) (allocated w) (layout w) s.2.
Definition set_controller (f : Controller → Controller) (w : World) : World :=
  mkWorld (self w) (activeObservations_ w) (observations_ w) (f (controller_ w))
          (heap w) (allocated w) (layout w) (host_ w).
Definition set_heap (f : (nat → ResizeObservation) → nat → ResizeObservation) (n : nat)
    (w : World) : World :=
  mkWorld (self w) (activeObservations_ w) (observations_ w) (controller_ w)
          (f (heap w)) n (layout w) (host_ w).
Definition set_layout (f : (JSValue → Box) → JSValue → Box) (w : World) : World :=
  mkWorld (self w) (activeObservations_ w) (observations_ w) (controller_ w)
          (heap w) (allocated w) (f (layout w)) (host_ w).

(** A method call on [this.observations_]. *)
Definition observations {A} (m : JS (M * Host) A) : JS World A :=
  zoom (λ w, (observations_ w, host_ w)) set_map m.

(** The user callback: it gets the entries and may do anything to the
    state, through the methods of the instance or to the layout. *)
Definition Callback : Type := list ResizeObserverEntry → JS World unit.

(** *** ResizeObservation (modelled from the spec) *)

(** [new ResizeObservation(target)] *)
Definition new_ResizeObservation (t : JSValue) : JS World ObsRef :=
  λ w, (Ok (Ref (allocated w)),
        set_heap (λ hp n, if bool_decide (n = allocated w)
                          then mkObservation t None else hp n)
                 (S (allocated w)) w).

(** [observation.isActive()] *)
Definition isActive (r : ObsRef) : JS World bool :=
  gets (λ w,
    let o := heap w (ref_index r) in
    bool_decide (broadcastedBox o ≠ Some (layout w (target o)))).

(** [observation.broadcastRect()] *)
Definition broadcastRect (r : ObsRef) : JS World Box :=
  λ w,
    let o := heap w (ref_index r) in
    let rect := layout w (target o) in
    (Ok rect,
     set_heap (λ hp n, if bool_decide (n = ref_index r)
                       then mkObservation (target o) (Some rect) else hp n)
              (allocated w) w).

(** [observation.target] *)
Definition target_of (r : ObsRef) : JS World JSValue :=
  gets (λ w, target (heap w (ref_index r))).

(** *** The module *)

(** [typeof Element !== 'undefined' && Element instanceof Object] *)
Definition hasElementInterface : bool :=
  bool_decide (is_Some (Element env (global env))).

(** [validateMethodCall(arguments, target)]; the second message has
    the word Element between double quotes in the source. *)
Definition validateMethodCall {S} (args : list JSValue) (target : JSValue) : JS S bool :=
  let length := VNum (Z.of_nat (length args)) in
  assertType (truthy length) "1 argument required, but only 0 present." ;;
  if negb hasElementInterface then ret false
  else
    is_element <- instanceof target (Element env (getWindowOf env target)) ;;
    assertType is_element "parameter 1 is not of type Element." ;;
    ret true.

(** The first parameter of a call with the arguments [args]. *)
Definition parameter1 (args : list JSValue) : JSValue := default VUndefined (head args).

(** [clearActive()]: [this.activeObservations_.splice(0)]. *)
Definition clearActive : JS World unit := modify (set_active (λ _, [])).

(** [hasActive()] *)
Definition hasActive : JS World bool :=
  gets (λ w, bool_decide (0 < Z.of_nat (length (activeObservations_ w)))).

(** [observe(target)], called with the arguments [args]. *)
Definition observe (args : list JSValue) : JS World unit :=
  let target := parameter1 args in
  valid <- validateMethodCall args target ;;
  if negb valid then ret tt
  else
    present <- observations (Map_has target) ;;
    if present then ret tt
    else
      observation <- new_ResizeObservation target ;;
      observations (Map_set target observation) ;;
      this <- gets self ;;
      modify (set_controller (ResizeObserverController.addObserver this)) ;;
      modify (set_controller ResizeObserverController.refresh).

(** [unobserve(target)], called with the arguments [args]. *)
Definition unobserve (args : list JSValue) : JS World unit :=
  let target := parameter1 args in
  valid <- validateMethodCall args target ;;
  if negb valid then ret tt
  else
    present <- observations (Map_has target) ;;
    if negb present then ret tt
    else
      observations (Map_delete target) ;;
      size <- gets (λ w, Map_size (observations_ w)) ;;
      if negb (truthy (VNum size)) then
        this <- gets self ;;
        modify (set_controller (ResizeObserverController.removeObserver this))
      else ret tt.

(** [disconnect()] *)
Definition disconnect : JS World unit :=
  clearActive ;;
  observations Map_clear ;;
  this <- gets self ;;
  modify (set_controller (ResizeObserverController.removeObserver this)).

(** [gatherActive()] *)
Definition gatherActive : JS World unit :=
  clearActive ;;
  m <- gets observations_ ;;
  Map_forEach (λ observation _,
    active <- isActive observation ;;
    if active then modify (set_active (λ a, a ++ [observation]))
    else ret tt) m.

(** [this.activeObservations_.map(f)] for an [f] that leaves the array
    alone. *)
Fixpoint array_map {A B} (f : A → JS World B) (l : list A) : JS World (list B) :=
  match l with
  | [] => ret []
  | x :: l' =>
      y <- f x ;;
      ys <- array_map f l' ;;
      ret (y :: ys)
  end.

(** [broadcastActive()], for the callback of the instance. *)
Definition broadcastActive (callback_ : Callback) : JS World unit :=
  active <- hasActive ;;
  if negb active then ret tt
  else
    observations <- gets activeObservations_ ;;
    entries <- array_map (λ observation,
                 t <- target_of observation ;;
                 rect <- broadcastRect observation ;;
                 ret (mkEntry t rect)) observations ;;
    callback_ entries ;;
    clearActive.

(** [new ResizeObserverSPI(callback, controller, callbackCtx)]: the
    callback is a value that is no function or a function; the fields
    of the new instance are [activeObservations_ = []] and
    [observations_ = new Map()].  The result is the instance, as the
    callback it holds and the state of its other fields. *)
Definition constructor (callback : JSValue + Callback) (this : positive)
    (controller : Controller) (layout : JSValue → Box) : JS Host (Callback * World) :=
  m <- Map_new ;;
  h <- gets id ;;
  match callback with
  | inl _ => throw (TypeError "The callback provided as parameter 1 is not a function.")
  | inr f =>
      ret (f, mkWorld this [] m controller
                (λ _, mkObservation VUndefined None) O layout h)
  end.
End SPI.
Global Arguments World M : clear implicits.
Global Arguments Callback M : clear implicits.
End ResizeObserverSPI.

(* ===================================================================== *)
(** * What the statements below speak of *)
(* ===================================================================== *)

Module Observe.
Section Observables.
Import ResizeObserverSPI.
Context {M : Type}.
Implicit Types (w : World M) (r : ObsRef).

(** The entry that [broadcastActive] builds for the observation [r]. *)
Definition entry_of w r : ResizeObserverEntry :=
  let o := heap w (ref_index r) in
  mkEntry (target o) (layout w (target o)).

(** The entries for the active observations of [w], in their order. *)
Definition snapshot w : list ResizeObserverEntry :=
  entry_of w <$> activeObservations_ w.

(** The state after [broadcastRect()] on each of the observations
    [l]. *)
Definition recorded_on (l : list ObsRef) w : World M :=
  foldl (λ w r, (broadcastRect r w).2) w l.

(** The state in which [broadcastActive] calls the callback. *)
Definition recorded w : World M := recorded_on (activeObservations_ w) w.

(** The targets of the active observations. *)
Definition active_targets w : list JSValue :=
  (λ r, target (heap w (ref_index r))) <$> activeObservations_ w.

(** [r] is active in [w]: what [isActive()] returns. *)
Definition active_in w r : bool :=
  bool_decide (broadcastedBox (heap w (ref_index r))
               ≠ Some (layout w (target (heap w (ref_index r))))).
End Observables.

Section OnMapShim.
Import ResizeObserverSPI.
Implicit Types (w : World (Es6Collections.MapShim ObsRef)).

(** The entries of [observations_] in the order [forEach] visits. *)
Definition entries (m : Es6Collections.MapShim ObsRef) : list (JSValue * ObsRef) :=
  match m with
  | Es6Collections.Native m => NativeMap.MapData m
  | Es6Collections.Shimmed m => ArrayShim._entries m
  end.

(** The targets that are registered with the instance, one for every
    entry of [observations_]. *)
Definition observed w : list JSValue := (entries (observations_ w)).*1.

(** The targets of the observations that [forEach] visits. *)
Definition observation_targets w : list JSValue :=
  (λ e, target (heap w (ref_index e.2))) <$> entries (observations_ w).

(** What [has(key)] returns on [m]. *)
Definition found (m : Es6Collections.MapShim ObsRef) (key : JSValue) : bool :=
  match m with
  | Es6Collections.Native n => Assoc.mem (NativeMap.MapData n) key
  | Es6Collections.Shimmed _ => false
  end.

(** [m] after [set(key, value)]. *)
Definition stored (m : Es6Collections.MapShim ObsRef) (key : JSValue) (value : ObsRef)
    : Es6Collections.MapShim ObsRef :=
  match m with
  | Es6Collections.Native n =>
      Es6Collections.Native
        (NativeMap.mkMap (Assoc.assign (NativeMap.MapData n) key value))
  | Es6Collections.Shimmed s =>
      Es6Collections.Shimmed
        (ArrayShim.mkShim (ArrayShim._entries s ++ [(key, value)]))
  end.

(** The state after an [observe(target)] that registers [target]: a
    new observation of it is stored, the instance is added to the
    controller and a refresh is requested. *)
Definition registering w (target : JSValue) : World (Es6Collections.MapShim ObsRef) :=
  mkWorld (self w) (activeObservations_ w)
    (stored (observations_ w) target (Ref (allocated w)))
    (ResizeObserverController.refresh
       (ResizeObserverController.addObserver (self w) (controller_ w)))
    (λ n, if bool_decide (n = allocated w) then mkObservation target None
          else heap w n)
    (S (allocated w)) (layout w) (host_ w).

(** [target] is an instance of the [Element] of its window. *)
Definition is_Element (env : Env) (target : JSValue) : bool :=
  match Element env (getWindowOf env target), target with
  | Some instances, VObj o => instances o
  | _, _ => false
  end.
End OnMapShim.
End Observe.

(** ** Sequences of operations on a map, and their results *)

Inductive Op (V : Type) :=
  | OpSet (key : JSValue) (value : V)
  | OpGet (key : JSValue)
  | OpDelete (key : JSValue)
  | OpHas (key : JSValue)
  | OpClear
  | OpSize.
Arguments OpSet {V} key value.
Arguments OpGet {V} key.
Arguments OpDelete {V} key.
Arguments OpHas {V} key.
Arguments OpClear {V}.
Arguments OpSize {V}.

(** What a call returns: [set] returns the map itself, [clear] nothing. *)
Inductive Returned (V : Type) :=
  | RThis
  | RValue (v : option V)
  | RJS (v : JSValue)
  | RNothing
  | RThrown (e : JSError).
Arguments RThis {V}.
Arguments RValue {V} v.
Arguments RJS {V} v.
Arguments RNothing {V}.
Arguments RThrown {V} e.

Definition returned {S A V} (f : A → Returned V) (m : JS S A) : S → Returned V * S :=
  λ s, match m s with
       | (Ok a, s') => (f a, s')
       | (Throw e, s') => (RThrown e, s')
       end.

Fixpoint run {S V} (step : Op V → S → Returned V * S) (ops : list (Op V)) (s : S)
    : list (Returned V) :=
  match ops with
  | [] => []
  | op :: ops' => let '(r, s') := step op s in r :: run step ops' s'
  end.

Definition ArrayShim_step {V} `{!Stringify V} (op : Op V)
    : ArrayShim.St V → Returned V * ArrayShim.St V :=
  match op with
  | OpSet k v => returned (λ _, RThis) (ArrayShim.set k v)
  | OpGet k => returned RValue (ArrayShim.get k)
  | OpDelete k => returned (λ b, RJS (VBool b)) (ArrayShim.delete k)
  | OpHas k => returned (λ b, RJS (VBool b)) (ArrayShim.has k)
  | OpClear => returned (λ _, RNothing) ArrayShim.clear
  | OpSize => λ s, (RJS (VNum (ArrayShim.size s.1)), s)
  end.

Definition TagShim_step {V} (op : Op V)
    : TagShim.St V → Returned V * TagShim.St V :=
  match op with
  | OpSet k v => returned (λ _, RThis) (TagShim.set k v)
  | OpGet k => returned RValue (TagShim.get k)
  | OpDelete k => returned (λ b, RJS (VBool b)) (TagShim.delete k)
  | OpHas k => returned RJS (TagShim.has k)
  | OpClear => returned (λ _, RNothing) TagShim.clear
  | OpSize => λ s, (RJS (VNum (TagShim.size s.1)), s)
  end.

(** The results of [ops] on a new array-backed map. *)
Definition ArrayShim_results {V} `{!Stringify V} (h : Host) (ops : list (Op V))
    : list (Returned V) :=
  run ArrayShim_step ops (ArrayShim.constructor, h).

(** The results of [ops] on a new tag-backed map. *)
Definition TagShim_results {V} (h : Host) (ops : list (Op V)) : list (Returned V) :=
  match TagShim.constructor h with
  | (Ok m, h') => run TagShim_step ops (m, h')
  | (Throw e, _) => [RThrown e]
  end.

(** ** Instances to evaluate the definitions on *)

Module Example.
Import ResizeObserverSPI.

(** A host with no frozen object and nothing drawn yet. *)
Definition host0 : Host :=
  mkHost ∅ ∅ (λ _, "[object HTMLDivElement]") (λ n, Z.of_nat n * 7 + 3) O.

(** The same host after [Object.freeze] on the object 1. *)
Definition host_frozen : Host :=
  mkHost {[ 1%positive ]} ∅ (λ _, "[object HTMLDivElement]") (λ n, Z.of_nat n * 7 + 3) O.

(** An environment with one window, where every object is an
    [Element], with and without a built-in [Map]. *)
Definition env_shim : Env := mkEnv false O (λ _, None) (λ _, Some (λ _, true)).
Definition env_native : Env := mkEnv true O (λ _, None) (λ _, Some (λ _, true)).

(** An environment without [Element]. *)
Definition env_bare : Env := mkEnv false O (λ _, None) (λ _, None).

(** An environment where only the objects 1, 2 and 3 are elements. *)
Definition env_three : Env :=
  mkEnv false O (λ _, None) (λ _, Some (λ o, bool_decide (o = 1 ∨ o = 2 ∨ o = 3)%positive)).

Definition box0 : Box := mkBox 100 50.

(** A new instance in either environment. *)
Definition new_world (env : Env) : World (Es6Collections.MapShim ObsRef) :=
  mkWorld 1%positive [] (Es6Collections.construct (Map_defined env))
          (mkController [] O) (λ _, mkObservation VUndefined None) O
          (λ _, box0) host0.

(** An instance with one active observation, of the object 1. *)
Definition world_active : World (Es6Collections.MapShim ObsRef) :=
  mkWorld 1%positive [Ref O]
          (Es6Collections.Native (NativeMap.mkMap [(VObj 1, Ref O)]))
          (mkController [1%positive] O) (λ _, mkObservation (VObj 1) None) 1%nat
          (λ _, box0) host0.

(** A callback that throws. *)
Definition failing : Callback (Es6Collections.MapShim ObsRef) :=
  λ _, throw (Error "callback failed").

(** A callback that stops observing the object 1 and returns. *)
Definition unobserving (env : Env) : Callback (Es6Collections.MapShim ObsRef) :=
  λ _, unobserve (Es6Collections.impl (Map_defined env)) env [VObj 1].

(** A new instance over the tag-backed map, in the host where the
    object 1 is frozen. *)
Definition tagged_world : World (TagShim.Shim ObsRef) :=
  mkWorld 1%positive [] (TagShim.mkShim [] "tag" 0 0)
          (mkController [] O) (λ _, mkObservation VUndefined None) O
          (λ _, box0) host_frozen.
End Example.

(* ===================================================================== *)
(** * shims/global.js *)
(* ===================================================================== *)

Module Global.

(** What the module meets when it is loaded.
    - [this_]: the [this] of the function call, the global object in
      sloppy code and [undefined] in a module;
    - [globalThis_], [self_], [window_]: the values of these identifiers,
      [undefined] where they are not declared;
    - [define_fails]: [Object.defineProperty] on [Object.prototype]
      throws (the prototype was sealed or frozen);
    - [__global__]: what the identifier [__global__] evaluates to while
      the accessor is on [Object.prototype]. *)
Record Realm := mkRealm {
  this_ : JSValue;
  globalThis_ : JSValue;
  self_ : JSValue;
  window_ : JSValue;
  define_fails : bool;
  __global__ : Res JSValue;
}.

(** The state is whether [Object.prototype] has the property
    [__global__]. *)
Definition St : Type := bool.

(** [typeof x === 'object' && x], as a condition. *)
Definition is_object (x : JSValue) : bool :=
  bool_decide (typeof x = TObject) && truthy x.

(** [try { m } catch (error) { handler }] *)
Definition try_catch {S A} (m : JS S A) (handler : JS S A) : JS S A :=
  λ s, match m s with
       | (Ok a, s') => (Ok a, s')
       | (Throw _, s') => handler s'
       end.

(** [try { m } finally { f }] *)
Definition try_finally {S A} (m : JS S A) (f : JS S unit) : JS S A :=
  λ s, let '(r, s') := m s in
       match f s' with
       | (Ok _, s'') => (r, s'')
       | (Throw e, s'') => (Throw e, s'')
       end.

Definition naiveFallback (r : Realm) : JS St JSValue :=
  if is_object (self_ r) then ret (self_ r)
  else if is_object (window_ r) then ret (window_ r)
  else throw (Error "Unable to resolve global `this`").

(** [Object.defineProperty(Object.prototype, '__global__', ...)] *)
Definition define (r : Realm) : JS St unit :=
  if define_fails r then throw (TypeError "Cannot define property __global__")
  else modify (λ _, true).

(** The default export.  The [catch] of the first [try] returns
    [naiveFallback()]; the second [try] has a [finally] only. *)
Definition global (r : Realm) : JS St JSValue :=
  if truthy (this_ r) then ret (this_ r)
  else if is_object (globalThis_ r) then ret (globalThis_ r)
  else
    defined <- try_catch (define r ;; ret true) (ret false) ;;
    if negb defined then naiveFallback r
    else
      try_finally
        (g <- (λ s, (__global__ r, s)) ;;
         if negb (truthy g) then naiveFallback r else ret g)
        (modify (λ _, false)).
End Global.

(* ===================================================================== *)
(** * What the statements on the tag-backed map speak of *)
(* ===================================================================== *)

(** [Object.preventExtensions(o)] *)
Definition preventExtensions (o : positive) (h : Host) : Host :=
  mkHost ({[ o ]} ∪ inextensible h) (props h) (description h) (random h) (draws h).

(** The naming [f] tells [k0] from the keys of [l]. *)
Definition separates {K N A : Type} (f : K → N) (l : list (K * A)) (k0 : K) : Prop :=
  ∀ k, k ∈ l.*1 → f k = f k0 → k = k0.

Module Tagged.
Section Tagged.
Context {V : Type}.
Implicit Types (s : TagShim.St V) (data : list (JSValue * V)).

(** The name under which the entry of the object [k] is stored: the tag
    of the map followed by the identifier that [k] bears under it. *)
Definition nameof (tag : string) (h : Host) (k : JSValue) : string :=
  match k with
  | VObj o => tag +:+ pretty (default 0 (props h !! (o, tag)))
  | _ => EmptyString
  end.

(** The table of the entries [data], each under the name of its key. *)
Definition named (tag : string) (h : Host) data : Obj.t (JSValue * V) :=
  (λ kv, (nameof tag h kv.1, kv)) <$> data.

(** The map [s.1] holds the entries [data], in this order, in the host
    [s.2]: the keys are objects, each bears an identifier of its own
    below the counter of the map, no other object bears one, and the
    counter has not reached [2^31]. *)
Record wf s data : Prop := mk_wf {
  wf_tag : String.prefix TagShim.tagPrefix (TagShim.tag_ s.1) = true;
  wf_entries : TagShim.entries_ s.1 = named (TagShim.tag_ s.1) s.2 data;
  wf_keys : ∀ k, k ∈ data.*1 →
      ∃ o id, k = VObj o ∧ props s.2 !! (o, TagShim.tag_ s.1) = Some id
              ∧ 0 ≤ id < TagShim.id_ s.1;
  wf_tagged : ∀ o id, props s.2 !! (o, TagShim.tag_ s.1) = Some id →
      VObj o ∈ data.*1;
  wf_names : NoDup (nameof (TagShim.tag_ s.1) s.2 <$> data.*1);
  wf_size : TagShim.size_ s.1 = Z.of_nat (length data);
  wf_id : 0 ≤ TagShim.id_ s.1 < 2 ^ 31;
}.

End Tagged.
End Tagged.



(** The values and keys that [forEach] passes to its callback, in the
    order of the calls. *)
Definition collect {V} : V → JSValue → JS (list (V * JSValue)) unit :=
  λ v k, modify (λ visited, visited ++ [(v, k)]).

(** ** More instances to evaluate the definitions on *)

Module Example2.
(** A tag-backed map with no entry, under a tag that no object of
    [Example.host0] bears. *)
Definition tag0 : string := "__ResizeObserverPolyfill_Map__0".
Definition empty0 : TagShim.Shim JSValue := TagShim.mkShim [] tag0 0 0.

(** The same map after [set(o1, 7)]. *)
Definition one0 : TagShim.St JSValue :=
  (TagShim.mkShim [(tag0 +:+ "0", (VObj 1, VNum 7))] tag0 1 1,
   set_props (<[(1%positive, tag0) := 0]>) Example.host0).

(** A map whose counter has reached [2^32]: the identifier 0 is in use
    by the object 1 and comes up again. *)
Definition wrapped0 : TagShim.St JSValue :=
  (TagShim.mkShim [(tag0 +:+ "0", (VObj 1, VNum 7))] tag0 1 (2 ^ 32),
   set_props (<[(1%positive, tag0) := 0]>) Example.host0).

(** A realm in which a module is loaded in a browser: no [this], no
    [globalThis], and [__global__] resolves to the window. *)
Definition browser : Global.Realm :=
  Global.mkRealm VUndefined VUndefined (VObj 1) (VObj 1) false (Ok (VObj 1)).

(** A realm with nothing to find the global object by. *)
Definition nowhere : Global.Realm :=
  Global.mkRealm VUndefined VUndefined VUndefined VUndefined false (Ok VUndefined).


(** A new instance over the tag-backed map, in the host where no object
    is frozen. *)
Definition tagged_new : ResizeObserverSPI.World (TagShim.Shim ObsRef) :=
  ResizeObserverSPI.mkWorld 1%positive [] (TagShim.mkShim [] tag0 0 0)
    (mkController [] O) (λ _, mkObservation VUndefined None) O
    (λ _, Example.box0) Example.host0.
End Example2.

(** ** The shape of a tag *)

(** The digits that [toString(16)] writes. *)
Definition lower_hex (c : Ascii.ascii) : bool :=
  bool_decide (c ∈ String.list_ascii_of_string "0123456789abcdef").

(** [u] fills the pattern: a hexadecimal digit for every [x], one of 8,
    9, a and b for every [y], and the character of the pattern
    elsewhere. *)
Fixpoint fills (pattern u : string) : bool :=
  match pattern, u with
  | EmptyString, EmptyString => true
  | String p pattern', String c u' =>
      (if bool_decide (p = "x"%char) then lower_hex c
       else if bool_decide (p = "y"%char)
            then bool_decide (c ∈ String.list_ascii_of_string "89ab")
            else bool_decide (c = p))
      && fills pattern' u'
  | _, _ => false
  end.

(** The number of the characters of the pattern that are replaced. *)
Fixpoint replaced (pattern : string) : nat :=
  match pattern with
  | EmptyString => O
  | String p pattern' =>
      (if bool_decide (p = "x"%char) || bool_decide (p = "y"%char) then 1 else 0)%nat
      + replaced pattern'
  end.

(** ** The array-backed [Shim] after a run of [set] *)

(* ===================================================================== *)
(** * Properties *)
(* ===================================================================== *)

(** ** The monad *)

Lemma bind_ok {S A B} (m : JS S A) (k : A → JS S B) (s s' : S) (a : A) :
  m s = (Ok a, s') → bind m k s = k a s'.
Proof. intros H. unfold bind. by rewrite H. Qed.

Lemma bind_throw {S A B} (m : JS S A) (k : A → JS S B) (s s' : S) (e : JSError) :
  m s = (Throw e, s') → bind m k s = (Throw e, s').
Proof. intros H. unfold bind. by rewrite H. Qed.

(** ** Numbers *)

Lemma parse_digits_comma (a b : string) (acc : Z) :
  parse_digits acc (a +:+ "," +:+ b) = None.
Proof.
  revert acc. induction a as [|c a IH]; intros acc; simpl.
  - reflexivity.
  - destruct (digit_value c); [apply IH | reflexivity].
Qed.

(** A string with a comma in it is no number. *)
Lemma StringToNumber_comma (a b : string) :
  StringToNumber (a +:+ "," +:+ b) = NaN.
Proof. unfold StringToNumber. by rewrite parse_digits_comma. Qed.

(** ** The array-backed [Shim] *)

Section ArrayShimFacts.
Context {V : Type} `{!Stringify V}.
Implicit Types (s : ArrayShim.St V) (key : JSValue) (value : V).

(** The number [i < length] compares with is never a number. *)
Lemma ToNumber_element_NaN (h : Host) (length : option (JSValue * V)) :
  ArrayShim.ToNumber_element h length = NaN.
Proof.
  destruct length as [[k v]|]; simpl; [apply StringToNumber_comma | reflexivity].
Qed.

(** So the loop of [_indexOfKey] never runs its body. *)
Lemma indexOfKey_never_finds key s : ArrayShim._indexOfKey key s = (Ok (-1), s).
Proof. unfold ArrayShim._indexOfKey. by rewrite ToNumber_element_NaN. Qed.

Lemma has_false key s : ArrayShim.has key s = (Ok false, s).
Proof.
  unfold ArrayShim.has. by rewrite (bind_ok _ _ _ _ _ (indexOfKey_never_finds key s)).
Qed.

Lemma get_undefined key s : ArrayShim.get key s = (Ok None, s).
Proof.
  unfold ArrayShim.get. by rewrite (bind_ok _ _ _ _ _ (indexOfKey_never_finds key s)).
Qed.

Lemma set_pushes key value s :
  ArrayShim.set key value s =
  (Ok tt, (ArrayShim.mkShim (ArrayShim._entries s.1 ++ [(key, value)]), s.2)).
Proof.
  unfold ArrayShim.set. by rewrite (bind_ok _ _ _ _ _ (indexOfKey_never_finds key s)).
Qed.

Lemma delete_false key s : ArrayShim.delete key s = (Ok false, s).
Proof.
  unfold ArrayShim.delete.
  by rewrite (bind_ok _ _ _ _ _ (indexOfKey_never_finds key s)).
Qed.
End ArrayShimFacts.

(** C2.  The claim is that the store has the semantics of a map: after
    [set(k, v)], [has(k)] is true and [get(k)] is [v]; a [set] on a key
    that is there does not grow the size; [delete(k)] removes [k] and
    tells whether it was there.  On the array-backed [Shim], from any
    state of the map: after [set(k, v)], [has(k)] is false and [get(k)]
    is [undefined]; a second [set(k, v')] grows the size again, with the
    two entries one after the other; [delete(k)] is false and removes
    nothing. *)
Theorem C2_array_shim_never_finds_a_key
    {V : Type} `{!Stringify V} (m : ArrayShim.Shim V) (h : Host)
    (k : JSValue) (v v' : V) :
  let s1 := (ArrayShim.set k v (m, h)).2 in
  let s2 := (ArrayShim.set k v' s1).2 in
  ArrayShim.has k s1 = (Ok false, s1)
  ∧ ArrayShim.get k s1 = (Ok None, s1)
  ∧ ArrayShim.size s2.1 = ArrayShim.size m + 2
  ∧ ArrayShim._entries s2.1 = ArrayShim._entries m ++ [(k, v); (k, v')]
  ∧ ArrayShim.delete k s1 = (Ok false, s1).
Proof.
  intros s1 s2. subst s1 s2. rewrite !set_pushes. simpl.
  repeat split.
  - apply has_false.
  - apply get_undefined.
  - unfold ArrayShim.size. simpl. rewrite !length_app. simpl. lia.
  - by rewrite <- app_assoc.
  - apply delete_false.
Qed.

(** ** The observer, over any map *)

Section SPIFacts.
Import ResizeObserverSPI Observe.
Context {M : Type} (Map : MapImpl ObsRef M) (env : Env).
Implicit Types (w : World M) (r : ObsRef) (callback : Callback M).

Lemma entry_of_broadcastRect w x r :
  entry_of (broadcastRect x w).2 r = entry_of w r.
Proof.
  unfold entry_of, broadcastRect. simpl.
  case_bool_decide as E; [rewrite E|]; reflexivity.
Qed.

(** The entries that [map] builds are those of the state it starts in:
    [broadcastRect()] changes no target and no layout. *)
Lemma array_map_entries l w :
  array_map (λ observation,
      t <- target_of observation ;;
      rect <- broadcastRect observation ;;
      ret (mkEntry t rect)) l w
  = (Ok (entry_of w <$> l), recorded_on l w).
Proof.
  revert w. induction l as [|x l IH]; intros w; [reflexivity|].
  cbn [array_map fmap list_fmap recorded_on foldl].
  unfold bind at 1. unfold bind at 1.
  change (target_of x w) with (Ok (target (heap w (ref_index x))), w).
  cbn beta iota. unfold bind at 1.
  change (broadcastRect x w)
    with (Ok (layout w (target (heap w (ref_index x)))), (broadcastRect x w).2).
  cbn beta iota. unfold ret at 1. cbn beta iota.
  unfold bind at 1. rewrite IH. cbn beta iota. unfold ret.
  f_equal. f_equal. f_equal.
  apply list_fmap_ext. intros _ r _. apply entry_of_broadcastRect.
Qed.

(** [broadcastActive()] on an instance with nothing active. *)
Lemma broadcastActive_idle callback w :
  activeObservations_ w = [] → broadcastActive callback w = (Ok tt, w).
Proof.
  intros H. unfold broadcastActive, bind, hasActive, gets. by rewrite H.
Qed.

(** [broadcastActive()] on an instance with something active: the
    entries are built, the callback is called on them once, and
    [clearActive()] follows if it returns. *)
Lemma broadcastActive_calls callback w :
  activeObservations_ w ≠ [] →
  broadcastActive callback w
  = bind (callback (snapshot w)) (λ _, clearActive) (recorded w).
Proof.
  intros H. unfold broadcastActive.
  unfold bind at 1, hasActive, gets.
  destruct (activeObservations_ w) as [|x l] eqn:E; [done|].
  rewrite bool_decide_true by (simpl; lia). cbn beta iota.
  unfold negb. unfold bind at 1. cbn beta iota.
  unfold bind at 1. rewrite E, array_map_entries. cbn beta iota.
  unfold snapshot, recorded. by rewrite E.
Qed.
End SPIFacts.

(** C3.  The claim is that a callback that raises an error does not make
    [broadcastActive] skip the clearing of [activeObservations].  It does:
    the instance with one active observation and a callback that throws
    is left with that observation active. *)
Lemma C3_counterexample :
  ¬ (∀ (callback : ResizeObserverSPI.Callback (Es6Collections.MapShim ObsRef))
       (w w' : ResizeObserverSPI.World (Es6Collections.MapShim ObsRef)) (e : JSError),
       ResizeObserverSPI.broadcastActive callback w = (Throw e, w') →
       ResizeObserverSPI.activeObservations_ w' = []).
Proof.
  intros H.
  specialize (H Example.failing Example.world_active
                (Observe.recorded Example.world_active) (Error "callback failed")
                eq_refl).
  discriminate H.
Qed.

(** C3, amended.  If the user callback raises an error during
    [broadcastActive], the error goes on to the caller and the clearing
    is skipped: the instance is left in the state in which the callback
    raised.  The next [gatherActive] starts by clearing, so that the
    observations left over do not reach it. *)
Theorem C3_fault_skips_clearing
    {M : Type} (Map : MapImpl ObsRef M)
    (callback : ResizeObserverSPI.Callback M) (w w' : ResizeObserverSPI.World M)
    (e : JSError) :
  ResizeObserverSPI.activeObservations_ w ≠ [] →
  callback (Observe.snapshot w) (Observe.recorded w) = (Throw e, w') →
  ResizeObserverSPI.broadcastActive callback w = (Throw e, w')
  ∧ ResizeObserverSPI.gatherActive Map w'
    = ResizeObserverSPI.gatherActive Map (ResizeObserverSPI.set_active (λ _, []) w').
Proof.
  intros Hactive Hthrow. split.
  - rewrite broadcastActive_calls by done. by apply bind_throw.
  - reflexivity.
Qed.

Lemma C3_fault_skips_clearing_witness :
  ResizeObserverSPI.broadcastActive Example.failing Example.world_active
  = (Throw (Error "callback failed"), Observe.recorded Example.world_active)
  ∧ ResizeObserverSPI.activeObservations_ (Observe.recorded Example.world_active)
    = [Ref O].
Proof.
  split; [|reflexivity].
  apply (C3_fault_skips_clearing (Es6Collections.impl true)
           Example.failing Example.world_active
           (Observe.recorded Example.world_active) (Error "callback failed")).
  - discriminate.
  - reflexivity.
Defined.

(** C5.  The entries that a callback invocation gets are built from
    [activeObservations] in the state before the callback runs: they are
    the same whatever the callback does.  What the callback does to the
    state is all there after [broadcastActive] but for the cleared
    [activeObservations], and the next [gatherActive] runs on it. *)
Theorem C5_entries_are_built_before_the_callback
    {M : Type} (Map : MapImpl ObsRef M)
    (w : ResizeObserverSPI.World M) :
  ResizeObserverSPI.activeObservations_ w ≠ [] →
  ∀ callback : ResizeObserverSPI.Callback M,
    ResizeObserverSPI.broadcastActive callback w
    = bind (callback (Observe.snapshot w)) (λ _, ResizeObserverSPI.clearActive)
           (Observe.recorded w)
    ∧ ∀ w', callback (Observe.snapshot w) (Observe.recorded w) = (Ok tt, w') →
        ResizeObserverSPI.broadcastActive callback w
        = (Ok tt, ResizeObserverSPI.set_active (λ _, []) w')
        ∧ ResizeObserverSPI.gatherActive Map
            (ResizeObserverSPI.broadcastActive callback w).2
          = ResizeObserverSPI.gatherActive Map w'.
Proof.
  intros Hactive callback.
  rewrite broadcastActive_calls by done. split; [reflexivity|].
  intros w' Hret. rewrite (bind_ok _ _ _ _ _ Hret). split; reflexivity.
Qed.

Lemma C5_entries_are_built_before_the_callback_witness :
  let callback := Example.unobserving Example.env_native in
  let w := Example.world_active in
  ResizeObserverSPI.broadcastActive callback w
  = bind (callback [mkEntry (VObj 1) Example.box0])
         (λ _, ResizeObserverSPI.clearActive) (Observe.recorded w)
  ∧ Observe.observed (ResizeObserverSPI.broadcastActive callback w).2 = [].
Proof.
  intros callback w.
  assert (Hactive : ResizeObserverSPI.activeObservations_ w ≠ []) by discriminate.
  destruct (C5_entries_are_built_before_the_callback
              (Es6Collections.impl true) w Hactive callback) as [Hcall Hafter].
  split; [exact Hcall|].
  destruct (Hafter _ eq_refl) as [-> _]. reflexivity.
Defined.

(** ** [MapShim], the map of the observer *)

Section MapShimFacts.
Context {V : Type} `{!Stringify V}.
Import Es6Collections.
Implicit Types (m : MapShim V) (h : Host) (key : JSValue) (value : V).

Lemma MapShim_has key m h :
  has key (m, h)
  = (Ok match m with
        | Native n => Assoc.mem (NativeMap.MapData n) key
        | Shimmed _ => false
        end, (m, h)).
Proof.
  destruct m as [n|s]; unfold has, method; simpl; [reflexivity|].
  by rewrite has_false.
Qed.

Lemma MapShim_set key value m h :
  set key value (m, h)
  = (Ok tt,
     (match m with
      | Native n => Native (NativeMap.mkMap (Assoc.assign (NativeMap.MapData n) key value))
      | Shimmed s => Shimmed (ArrayShim.mkShim (ArrayShim._entries s ++ [(key, value)]))
      end, h)).
Proof.
  destruct m as [n|s]; unfold set, method; simpl; [reflexivity|].
  by rewrite set_pushes.
Qed.

Lemma MapShim_delete key m h :
  delete key (m, h)
  = match m with
    | Native n =>
        (Ok (Assoc.mem (NativeMap.MapData n) key),
         (Native (NativeMap.mkMap (Assoc.remove (NativeMap.MapData n) key)), h))
    | Shimmed s => (Ok false, (m, h))
    end.
Proof.
  destruct m as [n|s]; unfold delete, method; simpl; [reflexivity|].
  by rewrite delete_false.
Qed.

Lemma MapShim_clear m h :
  clear (m, h)
  = (Ok tt,
     (match m with
      | Native _ => Native (NativeMap.mkMap [])
      | Shimmed _ => Shimmed (ArrayShim.mkShim [])
      end, h)).
Proof. by destruct m. Qed.
End MapShimFacts.

(** ** Association lists *)

Section AssocFacts.
Context {K A : Type} `{!EqDecision K}.
Implicit Types (o : list (K * A)) (k : K) (a : A).

Lemma Assoc_get_is_Some o k : is_Some (Assoc.get o k) ↔ k ∈ o.*1.
Proof.
  induction o as [|[n b] o IH]; simpl.
  - split; [by intros [] | by intros ?%elem_of_nil].
  - rewrite elem_of_cons. simpl. destruct (decide (n = k)) as [->|E].
    + rewrite bool_decide_true by done. split; [by left | by eexists].
    + rewrite bool_decide_false by done. rewrite IH.
      split; [by right | by intros [?|?]; [congruence|]].
Qed.

Lemma Assoc_mem_elem_of o k : Assoc.mem o k = bool_decide (k ∈ o.*1).
Proof. unfold Assoc.mem. apply bool_decide_ext, Assoc_get_is_Some. Qed.

Lemma Assoc_assign_fresh o k a :
  Assoc.mem o k = false → Assoc.assign o k a = o ++ [(k, a)].
Proof.
  rewrite Assoc_mem_elem_of. intros H%bool_decide_eq_false.
  induction o as [|[n b] o IH]; simpl; [done|].
  rewrite fmap_cons, not_elem_of_cons in H. destruct H as [H1 H2].
  rewrite bool_decide_false by (simpl in H1; congruence).
  by rewrite IH.
Qed.

Lemma Assoc_assign_keys o k a k' :
  k' ∈ (Assoc.assign o k a).*1 ↔ k' = k ∨ k' ∈ o.*1.
Proof.
  induction o as [|[n b] o IH]; simpl.
  - rewrite list_elem_of_singleton. split; [by left | intros [?|?%elem_of_nil]; done].
  - destruct (decide (n = k)) as [->|E].
    + rewrite bool_decide_true by done. rewrite !fmap_cons, !elem_of_cons. simpl. tauto.
    + rewrite bool_decide_false by done. rewrite !fmap_cons, !elem_of_cons, IH. simpl.
      tauto.
Qed.

Lemma Assoc_remove_keys o k k' :
  NoDup o.*1 → k' ∈ (Assoc.remove o k).*1 ↔ k' ≠ k ∧ k' ∈ o.*1.
Proof.
  induction o as [|[n b] o IH]; simpl; intros Hnd.
  - split; [by intros ?%elem_of_nil | by intros [_ ?%elem_of_nil]].
  - apply NoDup_cons in Hnd as [Hn Hnd]. rewrite elem_of_cons.
    destruct (decide (n = k)) as [->|E].
    + rewrite bool_decide_true by done. split.
      * intros Hin. split; [|by right]. by intros ->.
      * by intros [? [?|?]].
    + rewrite bool_decide_false by done. rewrite fmap_cons, elem_of_cons, IH by done.
      simpl. split.
      * intros [->|[? ?]]; [split; [done | by left] | split; [done | by right]].
      * intros [? [->|?]]; [by left | by right].
Qed.
End AssocFacts.

(** ** [validateMethodCall] *)

Section Validation.
Import ResizeObserverSPI Observe.
Context (env : Env) {S : Type}.
Implicit Types (s : S) (t a : JSValue) (args : list JSValue).

Lemma validate_no_arguments t s :
  validateMethodCall env [] t s
  = (Throw (TypeError "1 argument required, but only 0 present."), s).
Proof. reflexivity. Qed.

Lemma validate_without_Element a args t s :
  hasElementInterface env = false →
  validateMethodCall env (a :: args) t s = (Ok false, s).
Proof. intros H. unfold validateMethodCall. rewrite H. reflexivity. Qed.

Lemma validate_Element a args t s :
  hasElementInterface env = true → is_Element env t = true →
  validateMethodCall env (a :: args) t s = (Ok true, s).
Proof.
  intros H Ht. unfold validateMethodCall. rewrite H.
  unfold is_Element in Ht. cbn.
  destruct (Element env (getWindowOf env t)) as [instances|]; [|done].
  destruct t; try done. cbn. by rewrite Ht.
Qed.

Lemma validate_not_Element a args t s :
  hasElementInterface env = true → is_Element env t = false →
  ∃ message, validateMethodCall env (a :: args) t s = (Throw (TypeError message), s).
Proof.
  intros H Ht. unfold validateMethodCall. rewrite H.
  unfold is_Element in Ht. cbn.
  destruct (Element env (getWindowOf env t)) as [instances|]; [|by eexists].
  destruct t; cbn; try by eexists. rewrite Ht. by eexists.
Qed.
End Validation.

(** ** The observer over [MapShim] *)

Section SPIOnMapShim.
Import ResizeObserverSPI Observe.
Context (env : Env).
Local Abbreviation spi := (Es6Collections.impl (Map_defined env)).
Implicit Types (w : World (Es6Collections.MapShim ObsRef)).
Implicit Types (t a : JSValue) (args : list JSValue).

Lemma observations_has w t :
  observations (Map_has (MapImpl := spi) t) w = (Ok (found (observations_ w) t), w).
Proof.
  unfold observations, zoom. cbn [Map_has Es6Collections.impl].
  rewrite MapShim_has. by destruct w.
Qed.

Lemma observations_set w t r :
  observations (Map_set (MapImpl := spi) t r) w
  = (Ok tt, set_map (stored (observations_ w) t r, host_ w) w).
Proof.
  unfold observations, zoom. cbn [Map_set Es6Collections.impl].
  by rewrite MapShim_set.
Qed.

(** [observe] of an element that [has] does not find. *)
Lemma observe_registers w a args :
  hasElementInterface env = true → is_Element env a = true →
  found (observations_ w) a = false →
  observe spi env (a :: args) w = (Ok tt, registering w a).
Proof.
  intros He Ha Hf. unfold observe. change (parameter1 (a :: args)) with a. cbn zeta.
  rewrite (bind_ok _ _ _ _ _ (validate_Element env a args a w He Ha)).
  cbn [negb]. rewrite (bind_ok _ _ _ _ _ (observations_has w a)), Hf.
  unfold bind at 1. cbn [new_ResizeObservation].
  unfold bind at 1. rewrite observations_set. reflexivity.
Qed.

(** [observe] of an element that [has] finds. *)
Lemma observe_present w a args :
  hasElementInterface env = true → is_Element env a = true →
  found (observations_ w) a = true →
  observe spi env (a :: args) w = (Ok tt, w).
Proof.
  intros He Ha Hf. unfold observe. change (parameter1 (a :: args)) with a. cbn zeta.
  rewrite (bind_ok _ _ _ _ _ (validate_Element env a args a w He Ha)).
  cbn [negb]. by rewrite (bind_ok _ _ _ _ _ (observations_has w a)), Hf.
Qed.

(** [unobserve] of an element that [has] does not find. *)
Lemma unobserve_absent w a args :
  hasElementInterface env = true → is_Element env a = true →
  found (observations_ w) a = false →
  unobserve spi env (a :: args) w = (Ok tt, w).
Proof.
  intros He Ha Hf. unfold unobserve. change (parameter1 (a :: args)) with a. cbn zeta.
  rewrite (bind_ok _ _ _ _ _ (validate_Element env a args a w He Ha)).
  cbn [negb]. by rewrite (bind_ok _ _ _ _ _ (observations_has w a)), Hf.
Qed.

(** Without [Element], the two methods do nothing when they are given
    an argument. *)
Lemma observe_without_Element w a args :
  hasElementInterface env = false → observe spi env (a :: args) w = (Ok tt, w).
Proof.
  intros He. unfold observe.
  by rewrite (bind_ok _ _ _ _ _ (validate_without_Element env a args _ w He)).
Qed.

Lemma unobserve_without_Element w a args :
  hasElementInterface env = false → unobserve spi env (a :: args) w = (Ok tt, w).
Proof.
  intros He. unfold unobserve.
  by rewrite (bind_ok _ _ _ _ _ (validate_without_Element env a args _ w He)).
Qed.

(** The two methods throw when the validation does, with the state as
    it was. *)
Lemma observe_invalid w args e :
  validateMethodCall env args (parameter1 args) w = (Throw e, w) →
  observe spi env args w = (Throw e, w).
Proof. intros H. unfold observe. by rewrite (bind_throw _ _ _ _ _ H). Qed.

Lemma unobserve_invalid w args e :
  validateMethodCall env args (parameter1 args) w = (Throw e, w) →
  unobserve spi env args w = (Throw e, w).
Proof. intros H. unfold unobserve. by rewrite (bind_throw _ _ _ _ _ H). Qed.
End SPIOnMapShim.

(** ** Gathering, disconnecting *)

Section GatherOnMapShim.
Import ResizeObserverSPI Observe.
Context (env : Env).
Local Abbreviation spi := (Es6Collections.impl (Map_defined env)).
Implicit Types (w : World (Es6Collections.MapShim ObsRef)).
Implicit Types (t a : JSValue) (args : list JSValue).

(** The loop of [gatherActive] appends the active ones of the
    observations it visits, in the order it visits them. *)
Lemma gather_loop (l : list (JSValue * ObsRef)) w :
  for_each (λ entry : JSValue * ObsRef,
      active <- isActive entry.2 ;;
      if active then modify (set_active (λ l0, l0 ++ [entry.2])) else ret tt) l w
  = (Ok tt, set_active (λ l0, l0 ++ filter (λ r, active_in w r = true) l.*2) w).
Proof.
  revert w. induction l as [|[k r] l IH]; intros w.
  - rewrite fmap_nil, filter_nil. destruct w. unfold ret, set_active. cbn.
    by rewrite app_nil_r.
  - cbn [for_each fmap list_fmap fst snd]. unfold bind at 1. unfold bind at 1.
    change (isActive r w) with (Ok (active_in w r), w). cbn beta iota.
    rewrite filter_cons.
    destruct (active_in w r) eqn:E.
    + unfold modify at 1. rewrite IH. rewrite decide_True by done.
      destruct w. unfold set_active. cbn. by rewrite <- app_assoc.
    + unfold ret at 1. rewrite IH. rewrite decide_False by done. reflexivity.
Qed.

Lemma forEach_entries {S} (f : ObsRef → JSValue → JS S unit)
    (m : Es6Collections.MapShim ObsRef) :
  Es6Collections.forEach f m = for_each (λ entry, f entry.2 entry.1) (entries m).
Proof. by destruct m. Qed.

(** [gatherActive()] leaves in [activeObservations_] the observations
    that are active, in the order of [observations_]. *)
Lemma gatherActive_filters w :
  gatherActive spi w
  = (Ok tt, set_active
              (λ _, filter (λ r, active_in w r = true) (entries (observations_ w)).*2) w).
Proof.
  unfold gatherActive. unfold bind at 1. cbn [clearActive modify].
  unfold bind at 1. cbn [gets]. cbn [Map_forEach Es6Collections.impl].
  rewrite forEach_entries.
  cbn [observations_ set_active]. rewrite gather_loop. reflexivity.
Qed.

Lemma snapshot_targets {M} (w' : World M) :
  entry_target <$> snapshot w' = active_targets w'.
Proof. unfold snapshot, active_targets. by rewrite <- list_fmap_compose. Qed.

Lemma removeObserver_unregisters (o : positive) (c : Controller) :
  ResizeObserverController.registered o (ResizeObserverController.removeObserver o c)
  = false.
Proof.
  unfold ResizeObserverController.registered, ResizeObserverController.removeObserver.
  apply bool_decide_false. cbn. rewrite list_elem_of_filter. by intros [? _].
Qed.

Lemma removeObserver_idempotent (o : positive) (c : Controller) :
  ResizeObserverController.removeObserver o (ResizeObserverController.removeObserver o c)
  = ResizeObserverController.removeObserver o c.
Proof.
  unfold ResizeObserverController.removeObserver. cbn. f_equal.
  induction (observers c) as [|x l IH]; [done|].
  rewrite filter_cons. case_decide as E; [|done].
  rewrite filter_cons, decide_True by done. by rewrite IH.
Qed.

Lemma addObserver_registers (o : positive) (c : Controller) :
  ResizeObserverController.registered o (ResizeObserverController.addObserver o c) = true.
Proof.
  unfold ResizeObserverController.registered, ResizeObserverController.addObserver.
  destruct (decide (o ∈ observers c)) as [E|E].
  - rewrite (bool_decide_true _ E). by apply bool_decide_true.
  - rewrite (bool_decide_false _ E). apply bool_decide_true.
    cbn. apply elem_of_app. right. by left.
Qed.

(** [disconnect()], whatever the state. *)
Lemma disconnect_result w :
  disconnect spi w
  = (Ok tt,
     mkWorld (self w) []
       (match observations_ w with
        | Es6Collections.Native _ => Es6Collections.Native (NativeMap.mkMap [])
        | Es6Collections.Shimmed _ => Es6Collections.Shimmed (ArrayShim.mkShim [])
        end)
       (ResizeObserverController.removeObserver (self w) (controller_ w))
       (heap w) (allocated w) (layout w) (host_ w)).
Proof.
  unfold disconnect. unfold bind at 1. cbn [clearActive modify].
  unfold bind at 1. unfold observations, zoom.
  cbn [Map_clear Es6Collections.impl]. rewrite MapShim_clear. reflexivity.
Qed.
End GatherOnMapShim.

(** C7.  [disconnect()] clears [activeObservations], destroys all the
    observations and takes the instance off the controller; a second
    [disconnect()] leaves the state that the first one made. *)
Theorem C7_disconnect_clears_and_is_idempotent
    (env : Env) (w : ResizeObserverSPI.World (Es6Collections.MapShim ObsRef)) :
  let spi := Es6Collections.impl (Map_defined env) in
  let w' := (ResizeObserverSPI.disconnect spi w).2 in
  ResizeObserverSPI.disconnect spi w = (Ok tt, w')
  ∧ ResizeObserverSPI.activeObservations_ w' = []
  ∧ Observe.observed w' = []
  ∧ Es6Collections.size (ResizeObserverSPI.observations_ w') = 0
  ∧ ResizeObserverController.registered
      (ResizeObserverSPI.self w) (ResizeObserverSPI.controller_ w') = false
  ∧ ResizeObserverSPI.disconnect spi w' = (Ok tt, w').
Proof.
  intros spi w'. subst spi w'. rewrite !disconnect_result. cbn [snd].
  repeat split.
  - unfold Observe.observed. cbn. by destruct (ResizeObserverSPI.observations_ w).
  - cbn. by destruct (ResizeObserverSPI.observations_ w).
  - cbn. apply removeObserver_unregisters.
  - cbn. rewrite removeObserver_idempotent.
    by destruct (ResizeObserverSPI.observations_ w).
Qed.

(** ** The claims on [observe] and [unobserve] *)

Section ObserveOnMapShim.
Import ResizeObserverSPI Observe.
Context (env : Env).
Local Abbreviation spi := (Es6Collections.impl (Map_defined env)).
Implicit Types (w : World (Es6Collections.MapShim ObsRef)).
Implicit Types (t a : JSValue) (args : list JSValue).

Lemma entries_stored (m : Es6Collections.MapShim ObsRef) t r :
  found m t = false → entries (stored m t r) = entries m ++ [(t, r)].
Proof. destruct m as [n|s]; cbn; [apply Assoc_assign_fresh | done]. Qed.

Lemma observed_registering w t :
  found (observations_ w) t = false →
  observed (registering w t) = observed w ++ [t].
Proof.
  intros H. unfold observed. cbn [registering observations_].
  by rewrite entries_stored, fmap_app.
Qed.

Lemma found_elem_of (m : Es6Collections.MapShim ObsRef) t :
  found m t = true → t ∈ (entries m).*1.
Proof.
  destruct m as [n|s]; cbn; [|done].
  rewrite Assoc_mem_elem_of. apply bool_decide_eq_true.
Qed.

Lemma registered_registering w t :
  ResizeObserverController.registered (self w) (controller_ (registering w t)) = true.
Proof. cbn. apply (addObserver_registers (self w) (controller_ w)). Qed.

Lemma heap_registering_new w t :
  heap (registering w t) (allocated w) = mkObservation t None.
Proof. cbn. by rewrite bool_decide_true. Qed.

Lemma heap_registering_old w t (k : nat) :
  k ≠ allocated w → heap (registering w t) k = heap w k.
Proof. intros H. cbn. by rewrite bool_decide_false. Qed.

(** An observation that never broadcast is active. *)
Lemma active_in_new w r t :
  heap w (ref_index r) = mkObservation t None → active_in w r = true.
Proof. intros H. unfold active_in. rewrite H. by apply bool_decide_true. Qed.

Lemma gather_targets w :
  active_targets (gatherActive spi w).2
  = (λ r, target (heap w (ref_index r)))
      <$> filter (λ r, active_in w r = true) (entries (observations_ w)).*2.
Proof. by rewrite gatherActive_filters. Qed.

(** The validation changes nothing. *)
Lemma validate_state {S} args t (s : S) :
  (validateMethodCall env args t s).2 = s.
Proof.
  unfold validateMethodCall, assertType, assert, instanceof, bind, throw, ret.
  repeat (case_match; simplify_eq/=; try done).
Qed.

(** On the class [Shim], [unobserve] changes nothing at all. *)
Lemma unobserve_on_Shim w s args :
  observations_ w = Es6Collections.Shimmed s →
  (unobserve spi env args w).2 = w.
Proof.
  intros Hs. unfold unobserve. unfold bind at 1.
  pose proof (validate_state args (parameter1 args) w) as Hv.
  destruct (validateMethodCall env args (parameter1 args) w) as [[[]|e] w'];
    cbn in Hv; subst w'; cbn [negb]; try reflexivity.
  rewrite (bind_ok _ _ _ _ _ (observations_has env w (parameter1 args))).
  by rewrite Hs.
Qed.

(** With the built-in [Map], [unobserve] of an observed element removes
    its observation, and takes the instance off the controller when no
    observation is left. *)
Lemma unobserve_on_Native w n a args :
  hasElementInterface env = true → is_Element env a = true →
  observations_ w = Es6Collections.Native n →
  Assoc.mem (NativeMap.MapData n) a = true →
  let data := Assoc.remove (NativeMap.MapData n) a in
  unobserve spi env (a :: args) w
  = (Ok tt,
     mkWorld (self w) (activeObservations_ w)
       (Es6Collections.Native (NativeMap.mkMap data))
       (if bool_decide (data = [])
        then ResizeObserverController.removeObserver (self w) (controller_ w)
        else controller_ w)
       (heap w) (allocated w) (layout w) (host_ w)).
Proof.
  intros He Ha Hn Hmem data. subst data. unfold unobserve. change (parameter1 (a :: args)) with a. cbn zeta.
  rewrite (bind_ok _ _ _ _ _ (validate_Element env a args a w He Ha)).
  cbn [negb]. rewrite (bind_ok _ _ _ _ _ (observations_has env w a)), Hn.
  cbn [found]. rewrite Hmem. cbn [negb].
  unfold bind at 1. unfold observations at 1, zoom.
  cbn [Map_delete Es6Collections.impl]. rewrite Hn, MapShim_delete.
  cbn beta iota. unfold bind at 1. cbn [gets set_map fst snd observations_].
  cbn [Map_size Es6Collections.impl Es6Collections.size NativeMap.size NativeMap.MapData].
  destruct (Assoc.remove (NativeMap.MapData n) a) as [|d data']; cbn; by destruct w.
Qed.
End ObserveOnMapShim.

Lemma filter_all {A} (P : A → Prop) `{!∀ x, Decision (P x)} (l : list A) :
  (∀ x, x ∈ l → P x) → filter P l = l.
Proof.
  induction l as [|x l IH]; intros Hall; [done|].
  rewrite filter_cons, decide_True by (apply Hall; left).
  f_equal. apply IH. intros y Hy. apply Hall. by right.
Qed.

(** Where the map is the class [Shim], [has] finds no target and
    [unobserve] returns at once: after [observe(t)], [unobserve(t)]
    changes nothing, [t] is still registered and the instance is still
    with the controller. *)
Lemma unobserve_after_observe_on_Shim
    (env : Env) (w : ResizeObserverSPI.World (Es6Collections.MapShim ObsRef))
    (s : ArrayShim.Shim ObsRef) (t : JSValue) :
  ResizeObserverSPI.hasElementInterface env = true →
  Observe.is_Element env t = true →
  ResizeObserverSPI.observations_ w = Es6Collections.Shimmed s →
  let spi := Es6Collections.impl (Map_defined env) in
  let w1 := (ResizeObserverSPI.observe spi env [t] w).2 in
  Observe.observed w1 = Observe.observed w ++ [t]
  ∧ ResizeObserverSPI.unobserve spi env [t] w1 = (Ok tt, w1)
  ∧ Observe.observed (ResizeObserverSPI.unobserve spi env [t] w1).2
    = Observe.observed w ++ [t]
  ∧ ResizeObserverController.registered (ResizeObserverSPI.self w1)
      (ResizeObserverSPI.controller_ (ResizeObserverSPI.unobserve spi env [t] w1).2)
    = true.
Proof.
  intros He Ht Hs spi w1. subst spi w1.
  assert (Hf : Observe.found (ResizeObserverSPI.observations_ w) t = false)
    by by rewrite Hs.
  rewrite (observe_registers env w t [] He Ht Hf). cbn [snd].
  assert (Hu : ResizeObserverSPI.unobserve (Es6Collections.impl (Map_defined env)) env [t]
                 (Observe.registering w t) = (Ok tt, Observe.registering w t)).
  { apply unobserve_absent; [done..|]. cbn. by rewrite Hs. }
  rewrite Hu. cbn [snd]. rewrite observed_registering by done.
  repeat split. apply (registered_registering w t).
Qed.


(** Where the map is the class [Shim], [has] does not find the target
    that the first call stored: the second call stores a second
    observation of it, the map grows by one, and the next gather pass
    has two entries for [t] at the end of what it broadcasts. *)
Lemma observe_twice_on_Shim
    (env : Env) (w : ResizeObserverSPI.World (Es6Collections.MapShim ObsRef))
    (s : ArrayShim.Shim ObsRef) (t : JSValue) :
  ResizeObserverSPI.hasElementInterface env = true →
  Observe.is_Element env t = true →
  ResizeObserverSPI.observations_ w = Es6Collections.Shimmed s →
  let spi := Es6Collections.impl (Map_defined env) in
  let w1 := (ResizeObserverSPI.observe spi env [t] w).2 in
  let w2 := (ResizeObserverSPI.observe spi env [t] w1).2 in
  ResizeObserverSPI.observe spi env [t] w1 = (Ok tt, w2)
  ∧ Observe.observed w1 = Observe.observed w ++ [t]
  ∧ Observe.observed w2 = Observe.observed w ++ [t; t]
  ∧ Es6Collections.size (ResizeObserverSPI.observations_ w2)
    = Es6Collections.size (ResizeObserverSPI.observations_ w1) + 1
  ∧ ∃ before,
      entry_target <$> Observe.snapshot (ResizeObserverSPI.gatherActive spi w2).2
      = before ++ [t; t].
Proof.
  intros He Ht Hs spi w1 w2. subst spi w1 w2.
  assert (Hf : Observe.found (ResizeObserverSPI.observations_ w) t = false)
    by by rewrite Hs.
  rewrite (observe_registers env w t [] He Ht Hf). cbn [snd].
  assert (Hf1 : Observe.found
                  (ResizeObserverSPI.observations_ (Observe.registering w t)) t = false)
    by (cbn; by rewrite Hs).
  rewrite (observe_registers env _ t [] He Ht Hf1). cbn [snd].
  split; [reflexivity|].
  rewrite !observed_registering by done. rewrite <- app_assoc.
  split; [reflexivity|]. split; [reflexivity|]. split.
  - cbn. rewrite Hs. cbn. unfold ArrayShim.size. cbn. rewrite !length_app. cbn. lia.
  - rewrite snapshot_targets, gather_targets.
    set (w1 := Observe.registering w t). set (w2 := Observe.registering w1 t).
    assert (H1 : ResizeObserverSPI.heap w2 (ResizeObserverSPI.allocated w)
                 = mkObservation t None).
    { unfold w2. rewrite heap_registering_old by (cbn; lia).
      apply heap_registering_new. }
    assert (H2 : ResizeObserverSPI.heap w2 (ResizeObserverSPI.allocated w1)
                 = mkObservation t None) by apply heap_registering_new.
    assert (He2 : Observe.entries (ResizeObserverSPI.observations_ w2)
                  = Observe.entries (ResizeObserverSPI.observations_ w)
                    ++ [(t, Ref (ResizeObserverSPI.allocated w));
                        (t, Ref (ResizeObserverSPI.allocated w1))]).
    { unfold w2. cbn [Observe.registering ResizeObserverSPI.observations_].
      rewrite (entries_stored (ResizeObserverSPI.observations_ w1)) by done.
      unfold w1. cbn [Observe.registering ResizeObserverSPI.observations_].
      rewrite entries_stored by done. by rewrite <- app_assoc. }
    rewrite He2, fmap_app, filter_app, fmap_app.
    eexists. f_equal. cbn [fmap list_fmap snd].
    rewrite filter_cons, decide_True by (by eapply active_in_new).
    rewrite filter_cons, decide_True by (by eapply active_in_new).
    rewrite filter_nil. cbn [fmap list_fmap ref_index]. by rewrite H1, H2.
Qed.

(** With the built-in [Map], the second of two calls of [observe] on an
    element changes nothing. *)
Lemma observe_twice_on_Native
    (env : Env) (w : ResizeObserverSPI.World (Es6Collections.MapShim ObsRef))
    (n : NativeMap.Map ObsRef) (t : JSValue) :
  ResizeObserverSPI.hasElementInterface env = true →
  Observe.is_Element env t = true →
  ResizeObserverSPI.observations_ w = Es6Collections.Native n →
  let spi := Es6Collections.impl (Map_defined env) in
  let w1 := (ResizeObserverSPI.observe spi env [t] w).2 in
  t ∈ Observe.observed w1
  ∧ ResizeObserverSPI.observe spi env [t] w1 = (Ok tt, w1).
Proof.
  intros He Ht Hn spi w1. subst spi w1.
  destruct (Observe.found (ResizeObserverSPI.observations_ w) t) eqn:Hf.
  - rewrite (observe_present env w t [] He Ht Hf). cbn [snd].
    split; [by apply found_elem_of | by apply observe_present].
  - rewrite (observe_registers env w t [] He Ht Hf). cbn [snd].
    assert (Hf1 : Observe.found
                    (ResizeObserverSPI.observations_ (Observe.registering w t)) t = true).
    { cbn. rewrite Hn. cbn. rewrite Assoc_mem_elem_of. apply bool_decide_true.
      apply Assoc_assign_keys. by left. }
    split; [by apply found_elem_of | by apply observe_present].
Qed.

(** With the built-in [Map], [unobserve] of an observed element removes
    it and nothing else, and takes the instance off the controller
    exactly when no target is left. *)
Lemma unobserve_removes_on_Native
    (env : Env) (w : ResizeObserverSPI.World (Es6Collections.MapShim ObsRef))
    (n : NativeMap.Map ObsRef) (t : JSValue) :
  ResizeObserverSPI.hasElementInterface env = true →
  Observe.is_Element env t = true →
  ResizeObserverSPI.observations_ w = Es6Collections.Native n →
  NoDup (Observe.observed w) →
  t ∈ Observe.observed w →
  let spi := Es6Collections.impl (Map_defined env) in
  let w' := (ResizeObserverSPI.unobserve spi env [t] w).2 in
  ResizeObserverSPI.unobserve spi env [t] w = (Ok tt, w')
  ∧ (t ∉ Observe.observed w')
  ∧ (∀ t', t' ≠ t → (t' ∈ Observe.observed w' ↔ t' ∈ Observe.observed w))
  ∧ ResizeObserverSPI.controller_ w'
    = (if bool_decide (Observe.observed w' = [])
       then ResizeObserverController.removeObserver
              (ResizeObserverSPI.self w) (ResizeObserverSPI.controller_ w)
       else ResizeObserverSPI.controller_ w).
Proof.
  intros He Ht Hn Hnd Hin spi w'. subst spi w'.
  unfold Observe.observed in Hnd, Hin. rewrite Hn in Hnd, Hin. cbn in Hnd, Hin.
  assert (Hmem : Assoc.mem (NativeMap.MapData n) t = true)
    by (rewrite Assoc_mem_elem_of; by apply bool_decide_true).
  rewrite (unobserve_on_Native env w n t [] He Ht Hn Hmem). cbn [snd].
  unfold Observe.observed. cbn [ResizeObserverSPI.observations_ Observe.entries].
  cbn [ResizeObserverSPI.controller_ ResizeObserverSPI.self NativeMap.MapData].
  rewrite Hn. cbn [Observe.entries].
  split; [reflexivity|]. split; [|split].
  - rewrite Assoc_remove_keys by done. by intros [? _].
  - intros t' Hne. rewrite Assoc_remove_keys by done. tauto.
  - destruct (Assoc.remove (NativeMap.MapData n) t) as [|e l] eqn:E.
    + by rewrite !bool_decide_true.
    + by rewrite !bool_decide_false.
Qed.

(** C6.  The claim is that [unobserve(target)] does nothing when the
    target is not observed, removes the observation of a target that is
    observed, and takes the instance off the controller exactly when no
    observation is left.  This holds with the built-in [Map].  Where the
    map is the class [Shim], hence in a host without a built-in [Map],
    [unobserve] removes nothing: after [observe(t)], the target [t] is
    registered, and after [unobserve(t)] it still is, and the instance is
    still with the controller. *)
Theorem C6_unobserve_removes_with_Map_and_not_with_Shim
    (env : Env) (w : ResizeObserverSPI.World (Es6Collections.MapShim ObsRef))
    (t : JSValue) :
  ResizeObserverSPI.hasElementInterface env = true →
  Observe.is_Element env t = true →
  let spi := Es6Collections.impl (Map_defined env) in
  (t ∉ Observe.observed w → ResizeObserverSPI.unobserve spi env [t] w = (Ok tt, w))
  ∧ (∀ n, ResizeObserverSPI.observations_ w = Es6Collections.Native n →
       NoDup (Observe.observed w) → t ∈ Observe.observed w →
       let w' := (ResizeObserverSPI.unobserve spi env [t] w).2 in
       ResizeObserverSPI.unobserve spi env [t] w = (Ok tt, w')
       ∧ (t ∉ Observe.observed w')
       ∧ (∀ t', t' ≠ t → (t' ∈ Observe.observed w' ↔ t' ∈ Observe.observed w))
       ∧ ResizeObserverSPI.controller_ w'
         = (if bool_decide (Observe.observed w' = [])
            then ResizeObserverController.removeObserver
                   (ResizeObserverSPI.self w) (ResizeObserverSPI.controller_ w)
            else ResizeObserverSPI.controller_ w))
  ∧ (∀ s, ResizeObserverSPI.observations_ w = Es6Collections.Shimmed s →
       let w1 := (ResizeObserverSPI.observe spi env [t] w).2 in
       Observe.observed w1 = Observe.observed w ++ [t]
       ∧ ResizeObserverSPI.unobserve spi env [t] w1 = (Ok tt, w1)
       ∧ Observe.observed (ResizeObserverSPI.unobserve spi env [t] w1).2
         = Observe.observed w ++ [t]
       ∧ ResizeObserverController.registered (ResizeObserverSPI.self w1)
           (ResizeObserverSPI.controller_
              (ResizeObserverSPI.unobserve spi env [t] w1).2) = true).
Proof.
  intros He Ht spi. subst spi. split; [|split].
  - intros Hnot. apply unobserve_absent; [done..|].
    destruct (Observe.found (ResizeObserverSPI.observations_ w) t) eqn:Hf; [|done].
    by apply found_elem_of in Hf.
  - intros n Hn Hnd Hin. by apply (unobserve_removes_on_Native env w n t).
  - intros s Hs. by apply (unobserve_after_observe_on_Shim env w s t).
Qed.

Lemma C6_unobserve_removes_with_Map_and_not_with_Shim_witness :
  let spi := Es6Collections.impl false in
  let w1 := (ResizeObserverSPI.observe spi Example.env_shim [VObj 1]
               (Example.new_world Example.env_shim)).2 in
  Observe.observed w1 = [VObj 1]
  ∧ Observe.observed (ResizeObserverSPI.unobserve spi Example.env_shim [VObj 1] w1).2
    = [VObj 1]
  ∧ Observe.observed
      (ResizeObserverSPI.unobserve (Es6Collections.impl true) Example.env_native
         [VObj 1] Example.world_active).2 = [].
Proof.
  intros spi w1.
  destruct (C6_unobserve_removes_with_Map_and_not_with_Shim Example.env_shim
              (Example.new_world Example.env_shim) (VObj 1) eq_refl eq_refl)
    as (_ & _ & Hshim).
  destruct (Hshim ArrayShim.constructor eq_refl) as (H1 & _ & H3 & _).
  split; [exact H1|]. split; [exact H3|].
  vm_compute. reflexivity.
Defined.

(** C1.  The claim is that [observe(t); observe(t)] is as one
    [observe(t)].  This holds with the built-in [Map]: the second call
    changes nothing.  Where the map is the class [Shim], the second call
    stores a second observation of [t]: the map grows by one, and the
    next gather pass has two entries for [t] at the end of what it
    broadcasts. *)
Theorem C1_second_observe_is_a_no_op_with_Map_and_not_with_Shim
    (env : Env) (w : ResizeObserverSPI.World (Es6Collections.MapShim ObsRef))
    (t : JSValue) :
  ResizeObserverSPI.hasElementInterface env = true →
  Observe.is_Element env t = true →
  let spi := Es6Collections.impl (Map_defined env) in
  let w1 := (ResizeObserverSPI.observe spi env [t] w).2 in
  let w2 := (ResizeObserverSPI.observe spi env [t] w1).2 in
  (∀ n, ResizeObserverSPI.observations_ w = Es6Collections.Native n →
     t ∈ Observe.observed w1
     ∧ ResizeObserverSPI.observe spi env [t] w1 = (Ok tt, w1))
  ∧ (∀ s, ResizeObserverSPI.observations_ w = Es6Collections.Shimmed s →
       ResizeObserverSPI.observe spi env [t] w1 = (Ok tt, w2)
       ∧ Observe.observed w1 = Observe.observed w ++ [t]
       ∧ Observe.observed w2 = Observe.observed w ++ [t; t]
       ∧ Es6Collections.size (ResizeObserverSPI.observations_ w2)
         = Es6Collections.size (ResizeObserverSPI.observations_ w1) + 1
       ∧ ∃ before,
           entry_target <$> Observe.snapshot (ResizeObserverSPI.gatherActive spi w2).2
           = before ++ [t; t]).
Proof.
  intros He Ht spi w1 w2. subst spi w1 w2. split.
  - intros n Hn. by apply (observe_twice_on_Native env w n t).
  - intros s Hs. by apply (observe_twice_on_Shim env w s t).
Qed.

Lemma C1_second_observe_is_a_no_op_with_Map_and_not_with_Shim_witness :
  let spi := Es6Collections.impl false in
  let w1 := (ResizeObserverSPI.observe spi Example.env_shim [VObj 1]
               (Example.new_world Example.env_shim)).2 in
  let w2 := (ResizeObserverSPI.observe spi Example.env_shim [VObj 1] w1).2 in
  Observe.observed w1 = [VObj 1] ∧ Observe.observed w2 = [VObj 1; VObj 1].
Proof.
  intros spi w1 w2.
  destruct (C1_second_observe_is_a_no_op_with_Map_and_not_with_Shim Example.env_shim
              (Example.new_world Example.env_shim) (VObj 1) eq_refl eq_refl)
    as [_ Hshim].
  destruct (Hshim ArrayShim.constructor eq_refl) as (_ & H1 & H2 & _).
  split; [exact H1 | exact H2].
Defined.

Section Ordering.
Import ResizeObserverSPI Observe.
Context (env : Env).
Local Abbreviation spi := (Es6Collections.impl (Map_defined env)).
Implicit Types (w : World (Es6Collections.MapShim ObsRef)).

Lemma found_after_other (m : Es6Collections.MapShim ObsRef) (t t' : JSValue) r :
  t ≠ t' → found m t' = false → found (stored m t r) t' = false.
Proof.
  intros Hne. destruct m as [n|s]; cbn; [|done].
  rewrite !Assoc_mem_elem_of. intros H%bool_decide_eq_false.
  apply bool_decide_false. rewrite Assoc_assign_keys. intros [?|?]; congruence.
Qed.

Lemma found_nothing w t : observed w = [] → found (observations_ w) t = false.
Proof.
  unfold observed. intros H%fmap_nil_inv.
  destruct (observations_ w) as [[data]|s]; cbn in *; [|done].
  by rewrite H.
Qed.

(** Three calls of [observe], on three elements that differ, store them
    one after the other. *)
Lemma observe_three w0 (A B C : JSValue) :
  hasElementInterface env = true →
  is_Element env A = true → is_Element env B = true → is_Element env C = true →
  A ≠ B → A ≠ C → B ≠ C →
  found (observations_ w0) A = false →
  found (observations_ w0) B = false →
  found (observations_ w0) C = false →
  (observe spi env [C] (observe spi env [B] (observe spi env [A] w0).2).2).2
  = registering (registering (registering w0 A) B) C.
Proof.
  intros He HA HB HC HAB HAC HBC HfA HfB HfC.
  rewrite (observe_registers env w0 A [] He HA HfA). cbn [snd].
  rewrite (observe_registers env _ B [] He HB); cbn [snd].
  2:{ cbn. by apply found_after_other. }
  rewrite (observe_registers env _ C [] He HC); cbn [snd]; [done|].
  cbn. by repeat (apply found_after_other; [done|]).
Qed.

Lemma entries_three w0 (A B C : JSValue) :
  A ≠ B → A ≠ C → B ≠ C →
  found (observations_ w0) A = false →
  found (observations_ w0) B = false →
  found (observations_ w0) C = false →
  entries (observations_ (registering (registering (registering w0 A) B) C))
  = entries (observations_ w0)
    ++ [(A, Ref (allocated w0)); (B, Ref (S (allocated w0)));
        (C, Ref (S (S (allocated w0))))].
Proof.
  intros HAB HAC HBC HfA HfB HfC. cbn [registering observations_ allocated].
  rewrite entries_stored by (by repeat (apply found_after_other; [done|])).
  rewrite entries_stored by (by apply found_after_other).
  rewrite entries_stored by done. by rewrite <- !app_assoc.
Qed.

(** One gather pass and one broadcast, where the observations that
    [forEach] visits are all active: the callback is called once, on the
    entries of these observations in the order of the visit. *)
Lemma gather_then_broadcast w (callback : Callback (Es6Collections.MapShim ObsRef)) :
  entries (observations_ w) ≠ [] →
  (∀ e, e ∈ entries (observations_ w) → active_in w e.2 = true) →
  let w' := (gatherActive spi w).2 in
  activeObservations_ w' = (entries (observations_ w)).*2
  ∧ broadcastActive callback w'
    = bind (callback ((λ e, entry_of w e.2) <$> entries (observations_ w)))
           (λ _, clearActive) (recorded w').
Proof.
  intros Hne Hall w'. subst w'. rewrite gatherActive_filters. cbn [snd].
  assert (Hf : filter (λ r, active_in w r = true) (entries (observations_ w)).*2
               = (entries (observations_ w)).*2).
  { apply filter_all. intros r [e [-> He]]%list_elem_of_fmap. by apply Hall. }
  rewrite Hf. split; [reflexivity|].
  rewrite broadcastActive_calls.
  - unfold snapshot. cbn [activeObservations_ set_active].
    by rewrite <- list_fmap_compose.
  - cbn. destruct (entries (observations_ w)); [done|discriminate].
Qed.
End Ordering.

(** C4.  With the targets [A], [B], [C] observed in this order, the
    observations that [forEach] visits are those of [A], [B], [C] in this
    order; and in a cycle in which they are all active, [gatherActive]
    followed by [broadcastActive] calls the callback once, on the
    entries of [A], [B], [C] in this order, and clears
    [activeObservations] when the callback returns. *)
Theorem C4_one_call_with_the_entries_in_insertion_order
    (env : Env) (w0 : ResizeObserverSPI.World (Es6Collections.MapShim ObsRef))
    (A B C : JSValue) :
  ResizeObserverSPI.hasElementInterface env = true →
  Observe.is_Element env A = true →
  Observe.is_Element env B = true →
  Observe.is_Element env C = true →
  A ≠ B → A ≠ C → B ≠ C →
  Observe.observed w0 = [] →
  let spi := Es6Collections.impl (Map_defined env) in
  let w3 := (ResizeObserverSPI.observe spi env [C]
               (ResizeObserverSPI.observe spi env [B]
                  (ResizeObserverSPI.observe spi env [A] w0).2).2).2 in
  Observe.observed w3 = [A; B; C]
  ∧ Observe.observation_targets w3 = [A; B; C]
  ∧ ∀ w : ResizeObserverSPI.World (Es6Collections.MapShim ObsRef),
      Observe.observation_targets w = [A; B; C] →
      (∀ e, e ∈ Observe.entries (ResizeObserverSPI.observations_ w) →
            Observe.active_in w e.2 = true) →
      let w' := (ResizeObserverSPI.gatherActive spi w).2 in
      Observe.active_targets w' = [A; B; C]
      ∧ ∀ callback : ResizeObserverSPI.Callback (Es6Collections.MapShim ObsRef),
          let entries :=
            [mkEntry A (ResizeObserverSPI.layout w A);
             mkEntry B (ResizeObserverSPI.layout w B);
             mkEntry C (ResizeObserverSPI.layout w C)] in
          ResizeObserverSPI.broadcastActive callback w'
          = bind (callback entries) (λ _, ResizeObserverSPI.clearActive)
                 (Observe.recorded w')
          ∧ ∀ w'', callback entries (Observe.recorded w') = (Ok tt, w'') →
              ResizeObserverSPI.activeObservations_
                (ResizeObserverSPI.broadcastActive callback w').2 = [].
Proof.
  intros He HA HB HC HAB HAC HBC H0 spi w3. subst spi w3.
  rewrite observe_three by (done || by apply found_nothing).
  assert (He3 := entries_three w0 A B C HAB HAC HBC
                   (found_nothing w0 A H0) (found_nothing w0 B H0)
                   (found_nothing w0 C H0)).
  assert (Hnil : Observe.entries (ResizeObserverSPI.observations_ w0) = [])
    by (by apply fmap_nil_inv in H0).
  rewrite Hnil in He3. cbn [app] in He3.
  split; [|split].
  - unfold Observe.observed. by rewrite He3.
  - unfold Observe.observation_targets. rewrite He3. cbn.
    repeat case_bool_decide; (done || lia).
  - intros w Ht Hall w'.
    unfold Observe.observation_targets in Ht.
    destruct (gather_then_broadcast env w (λ _, ret tt)) as [Hact _]; [|done|].
    { intros E. by rewrite E in Ht. }
    fold w' in Hact.
    assert (Htargets : Observe.active_targets w' = [A; B; C]).
    { unfold Observe.active_targets. rewrite Hact, <- list_fmap_compose.
      subst w'. rewrite gatherActive_filters. exact Ht. }
    split; [exact Htargets|]. intros callback entries.
    destruct (gather_then_broadcast env w callback) as [_ Hcall]; [|done|].
    { intros E. by rewrite E in Ht. }
    fold w' in Hcall.
    assert (Hentries : (λ e, Observe.entry_of w e.2)
                         <$> Observe.entries (ResizeObserverSPI.observations_ w)
                       = entries).
    { destruct (Observe.entries (ResizeObserverSPI.observations_ w))
        as [|e1 [|e2 [|e3 [|e4 l]]]]; try done.
      cbn in Ht. unfold Observe.entry_of. cbn. by simplify_eq. }
    rewrite Hentries in Hcall. split; [exact Hcall|].
    intros w'' Hret. rewrite Hcall, (bind_ok _ _ _ _ _ Hret). reflexivity.
Qed.

Lemma C4_one_call_with_the_entries_in_insertion_order_witness :
  let env := Example.env_three in
  let spi := Es6Collections.impl false in
  let w3 := (ResizeObserverSPI.observe spi env [VObj 3]
               (ResizeObserverSPI.observe spi env [VObj 2]
                  (ResizeObserverSPI.observe spi env [VObj 1]
                     (Example.new_world env)).2).2).2 in
  Observe.observed w3 = [VObj 1; VObj 2; VObj 3]
  ∧ Observe.active_targets (ResizeObserverSPI.gatherActive spi w3).2
    = [VObj 1; VObj 2; VObj 3].
Proof.
  intros env spi w3.
  destruct (C4_one_call_with_the_entries_in_insertion_order env
              (Example.new_world env) (VObj 1) (VObj 2) (VObj 3)
              eq_refl eq_refl eq_refl eq_refl
              ltac:(discriminate) ltac:(discriminate) ltac:(discriminate) eq_refl)
    as (H1 & H2 & H3).
  split; [exact H1|].
  destruct (H3 w3 H2) as [Ht _]; [|exact Ht].
  assert (Hall : Forall (λ e, Observe.active_in w3 e.2 = true)
                   (Observe.entries (ResizeObserverSPI.observations_ w3))).
  { vm_compute. repeat (constructor; [vm_compute; reflexivity|]). constructor. }
  intros e He. exact (proj1 (Forall_forall _ _) Hall e He).
Defined.

(** C8.  The claim has four parts.  Three of them hold of the code:
    [observe] and [unobserve] throw a TypeError when called with no
    argument; where the host defines [Element] they throw a TypeError on
    a target that is no element; where it does not they do nothing; and
    on an element they never throw, [unobserve] of a target that is not
    observed does nothing, and with the built-in [Map] neither does
    [observe] of a target that is observed.  The fourth fails on the
    class [Shim]: there, [observe] of a target that is observed stores a
    second observation of it. *)
Theorem C8_faults_and_no_ops
    (env : Env) (w : ResizeObserverSPI.World (Es6Collections.MapShim ObsRef))
    (a : JSValue) (args : list JSValue) :
  let spi := Es6Collections.impl (Map_defined env) in
  let observe := ResizeObserverSPI.observe spi env in
  let unobserve := ResizeObserverSPI.unobserve spi env in
  let no_argument := TypeError "1 argument required, but only 0 present." in
  (observe [] w = (Throw no_argument, w) ∧ unobserve [] w = (Throw no_argument, w))
  ∧ (ResizeObserverSPI.hasElementInterface env = false →
     observe (a :: args) w = (Ok tt, w) ∧ unobserve (a :: args) w = (Ok tt, w))
  ∧ (ResizeObserverSPI.hasElementInterface env = true →
     Observe.is_Element env a = false →
     (∃ message, observe (a :: args) w = (Throw (TypeError message), w))
     ∧ (∃ message, unobserve (a :: args) w = (Throw (TypeError message), w)))
  ∧ (ResizeObserverSPI.hasElementInterface env = true →
     Observe.is_Element env a = true →
     (observe (a :: args) w).1 = Ok tt
     ∧ (unobserve (a :: args) w).1 = Ok tt
     ∧ (a ∉ Observe.observed w → unobserve (a :: args) w = (Ok tt, w))
     ∧ (∀ n, ResizeObserverSPI.observations_ w = Es6Collections.Native n →
             a ∈ Observe.observed w → observe (a :: args) w = (Ok tt, w))
     ∧ (∀ s, ResizeObserverSPI.observations_ w = Es6Collections.Shimmed s →
             a ∈ Observe.observed w →
             observe (a :: args) w = (Ok tt, Observe.registering w a)
             ∧ Observe.observed (Observe.registering w a) = Observe.observed w ++ [a])).
Proof.
  intros spi observe unobserve no_argument. subst spi observe unobserve no_argument.
  split; [|split; [|split]].
  - split; [apply observe_invalid | apply unobserve_invalid]; reflexivity.
  - intros He. split; [by apply observe_without_Element | by apply unobserve_without_Element].
  - intros He Ha.
    destruct (validate_not_Element env a args a w He Ha) as [message Hv].
    split; exists message; [by apply observe_invalid | by apply unobserve_invalid].
  - intros He Ha.
    assert (Hobs : ∀ b, Observe.found (ResizeObserverSPI.observations_ w) a = b →
              (ResizeObserverSPI.observe (Es6Collections.impl (Map_defined env)) env
                 (a :: args) w).1 = Ok tt).
    { intros [] Hf; [by rewrite observe_present | by rewrite observe_registers]. }
    split; [by eapply Hobs|]. split; [|split; [|split]].
    + destruct (ResizeObserverSPI.observations_ w) as [n|s] eqn:Hm.
      * destruct (Assoc.mem (NativeMap.MapData n) a) eqn:Hmem.
        -- by rewrite (unobserve_on_Native env w n a args He Ha Hm Hmem).
        -- rewrite unobserve_absent; [done..|]. by rewrite Hm.
      * rewrite unobserve_absent; [done..|]. by rewrite Hm.
    + intros Hnot. apply unobserve_absent; [done..|].
      destruct (Observe.found (ResizeObserverSPI.observations_ w) a) eqn:Hf; [|done].
      by apply found_elem_of in Hf.
    + intros n Hn Hin. apply observe_present; [done..|]. rewrite Hn. cbn.
      rewrite Assoc_mem_elem_of. apply bool_decide_true.
      unfold Observe.observed in Hin. by rewrite Hn in Hin.
    + intros s Hs Hin.
      assert (Hf : Observe.found (ResizeObserverSPI.observations_ w) a = false)
        by by rewrite Hs.
      split; [by apply observe_registers | by apply observed_registering].
Qed.

Lemma C8_faults_and_no_ops_witness :
  let spi := Es6Collections.impl false in
  let w1 := (ResizeObserverSPI.observe spi Example.env_shim [VObj 1]
               (Example.new_world Example.env_shim)).2 in
  ResizeObserverSPI.observe spi Example.env_bare [VObj 1]
    (Example.new_world Example.env_bare)
  = (Ok tt, Example.new_world Example.env_bare)
  ∧ (∃ message,
       ResizeObserverSPI.observe spi Example.env_three [VObj 4]
         (Example.new_world Example.env_three)
       = (Throw (TypeError message), Example.new_world Example.env_three))
  ∧ Observe.observed w1 = [VObj 1]
  ∧ Observe.observed (ResizeObserverSPI.observe spi Example.env_shim [VObj 1] w1).2
    = [VObj 1; VObj 1].
Proof.
  intros spi w1. split; [|split; [|split]].
  - destruct (C8_faults_and_no_ops Example.env_bare
                (Example.new_world Example.env_bare) (VObj 1) [])
      as (_ & H & _).
    exact (proj1 (H eq_refl)).
  - destruct (C8_faults_and_no_ops Example.env_three
                (Example.new_world Example.env_three) (VObj 4) [])
      as (_ & _ & H & _).
    exact (proj1 (H eq_refl eq_refl)).
  - reflexivity.
  - destruct (C8_faults_and_no_ops Example.env_shim w1 (VObj 1) [])
      as (_ & _ & _ & H).
    destruct (H eq_refl eq_refl) as (_ & _ & _ & _ & Hshim).
    destruct (Hshim (ArrayShim.mkShim [(VObj 1, Ref O)]) eq_refl) as [Hobs Hreg].
    { apply list_elem_of_In. left. reflexivity. }
    change (ResizeObserverSPI.observe spi Example.env_shim [VObj 1] w1)
      with (ResizeObserverSPI.observe (Es6Collections.impl (Map_defined Example.env_shim))
              Example.env_shim [VObj 1] w1).
    rewrite Hobs. exact Hreg.
Defined.

(** ** The tag-backed [Shim] *)

Section TagShimFacts.
Context {V : Type}.
Implicit Types (m : TagShim.Shim V) (h : Host) (o : positive) (value : V).

Lemma replace_xy_result (s : string) h :
  ∃ (u : string) (n : nat), TagShim.replace_xy s h = (Ok u, set_draws n h).
Proof.
  revert h. induction s as [|c s IH]; intros h.
  - exists EmptyString, (draws h). by destruct h.
  - cbn [TagShim.replace_xy]. unfold bind at 1, TagShim.replace_char.
    destruct (bool_decide (c = "x"%char) || bool_decide (c = "y"%char)).
    + unfold bind at 1, TagShim.draw. cbn beta iota. unfold ret at 1.
      unfold bind at 1.
      destruct (IH (set_draws (S (draws h)) h)) as (u & n & ->).
      cbn. by eexists _, _.
    + unfold ret at 1. unfold bind at 1.
      destruct (IH h) as (u & n & ->). cbn. by eexists _, _.
Qed.

(** A new tag starts with the prefix; drawing it changes no object. *)
Lemma generateTag_result h :
  ∃ (u : string) (n : nat),
    TagShim.generateTag h = (Ok (TagShim.tagPrefix +:+ u), set_draws n h).
Proof.
  unfold TagShim.generateTag, bind.
  destruct (replace_xy_result TagShim.template h) as (u & n & ->).
  by exists u, n.
Qed.

Lemma constructor_result h :
  ∃ (u : string) (n : nat),
    @TagShim.constructor V h
    = (Ok (TagShim.mkShim [] (TagShim.tagPrefix +:+ u) 0 0), set_draws n h).
Proof.
  destruct (generateTag_result h) as (u & n & Hg). exists u, n.
  unfold TagShim.constructor, TagShim.clear, bind, modify, TagShim.on_host, zoom.
  cbn. by rewrite Hg.
Qed.

Lemma isExtensible_frozen h o : o ∈ inextensible h → isExtensible h (VObj o) = false.
Proof. intros H. cbn. apply bool_decide_false. by intros []. Qed.

Lemma isExtensible_plain h o : o ∉ inextensible h → isExtensible h (VObj o) = true.
Proof. intros H. cbn. by apply bool_decide_true. Qed.

(** The tag of an object that is not extensible is [undefined]. *)
Lemma getTag_frozen m h o :
  o ∈ inextensible h → TagShim.getTag_ (VObj o) (m, h) = (Ok None, (m, h)).
Proof.
  intros H. unfold TagShim.getTag_, bind, TagShim.host, TagShim.this, gets.
  cbn -[isExtensible]. by rewrite isExtensible_frozen.
Qed.

Lemma insert_frozen m h o value :
  o ∈ inextensible h →
  TagShim.insert_ (VObj o) value (m, h)
  = (Throw (TypeError "Cannot use inextensible object as keys with MapShim!"), (m, h)).
Proof.
  intros H. unfold TagShim.insert_, bind, TagShim.host, TagShim.this, gets.
  cbn -[isExtensible]. by rewrite isExtensible_frozen.
Qed.

Lemma set_frozen m h o value :
  o ∈ inextensible h →
  TagShim.set (VObj o) value (m, h)
  = (Throw (TypeError "Cannot use inextensible object as keys with MapShim!"), (m, h)).
Proof.
  intros H. unfold TagShim.set.
  rewrite (bind_ok _ _ _ _ _ (getTag_frozen m h o H)).
  unfold bind at 1. cbn [TagShim.exists_ TagShim.this gets]. unfold bind at 1.
  cbn. by apply insert_frozen.
Qed.

Lemma has_frozen m h o :
  o ∈ inextensible h → TagShim.has (VObj o) (m, h) = (Ok VUndefined, (m, h)).
Proof.
  intros H. unfold TagShim.has. by rewrite (bind_ok _ _ _ _ _ (getTag_frozen m h o H)).
Qed.

Lemma get_frozen m h o :
  o ∈ inextensible h → TagShim.get (VObj o) (m, h) = (Ok None, (m, h)).
Proof.
  intros H. unfold TagShim.get. by rewrite (bind_ok _ _ _ _ _ (getTag_frozen m h o H)).
Qed.
(** [has] of an object that bears no tag of the map is [undefined], not
    [false]. *)
Lemma has_untagged m h o :
  props h !! (o, TagShim.tag_ m) = None →
  TagShim.has (VObj o) (m, h) = (Ok VUndefined, (m, h)).
Proof.
  intros H. unfold TagShim.has, TagShim.getTag_, bind, TagShim.host, TagShim.this, gets.
  cbn -[isExtensible]. unfold has_property. rewrite H.
  rewrite (bool_decide_false (is_Some None)) by (by intros []).
  by rewrite andb_false_r.
Qed.
End TagShimFacts.

(** C10.  The tag-backed map takes no object that is not extensible as a
    key: [set] with such a key throws a TypeError and leaves the map and
    the object as they were, so that [has] and [get] do not find the key.
    An observer over this map throws the same TypeError on [observe] of
    an element that is not extensible, and does not register it. *)
Theorem C10_inextensible_key_is_refused (h : Host) (o : positive) :
  o ∈ inextensible h →
  let refused := TypeError "Cannot use inextensible object as keys with MapShim!" in
  (∀ (V : Type) (m : TagShim.Shim V) (value : V),
     TagShim.set (VObj o) value (m, h) = (Throw refused, (m, h))
     ∧ TagShim.has (VObj o) (m, h) = (Ok VUndefined, (m, h))
     ∧ TagShim.get (VObj o) (m, h) = (Ok None, (m, h)))
  ∧ (∀ (env : Env) (w : ResizeObserverSPI.World (TagShim.Shim ObsRef)),
       ResizeObserverSPI.host_ w = h →
       ResizeObserverSPI.hasElementInterface env = true →
       Observe.is_Element env (VObj o) = true →
       let r := ResizeObserverSPI.observe TagShim_impl env [VObj o] w in
       r.1 = Throw refused
       ∧ ResizeObserverSPI.observations_ r.2 = ResizeObserverSPI.observations_ w
       ∧ ResizeObserverSPI.controller_ r.2 = ResizeObserverSPI.controller_ w
       ∧ ResizeObserverSPI.host_ r.2 = h).
Proof.
  intros Ho refused. subst refused. split.
  - intros V m value.
    split; [by apply set_frozen | split; [by apply has_frozen | by apply get_frozen]].
  - intros env w Hh He Ha r. subst r.
    set (w1 := ResizeObserverSPI.set_heap
                 (λ hp n, if bool_decide (n = ResizeObserverSPI.allocated w)
                          then mkObservation (VObj o) None else hp n)
                 (S (ResizeObserverSPI.allocated w)) w).
    assert (Hhas : ResizeObserverSPI.observations
                     (Map_has (MapImpl := TagShim_impl) (VObj o)) w = (Ok false, w)).
    { unfold ResizeObserverSPI.observations, zoom. cbn [Map_has TagShim_impl].
      unfold bind. rewrite Hh, (has_frozen _ h o Ho). cbn. destruct w; cbn in *.
      by subst. }
    assert (Hset : ResizeObserverSPI.observations
                     (Map_set (MapImpl := TagShim_impl) (VObj o)
                        (Ref (ResizeObserverSPI.allocated w))) w1
                   = (Throw (TypeError "Cannot use inextensible object as keys with MapShim!"),
                      w1)).
    { unfold ResizeObserverSPI.observations, zoom. cbn [Map_set TagShim_impl].
      change (ResizeObserverSPI.host_ w1) with (ResizeObserverSPI.host_ w).
      rewrite Hh, (set_frozen _ h o _ Ho). cbn. destruct w; cbn in *. by subst. }
    assert (Hobs : ResizeObserverSPI.observe TagShim_impl env [VObj o] w
                   = (Throw (TypeError "Cannot use inextensible object as keys with MapShim!"),
                      w1)).
    { unfold ResizeObserverSPI.observe.
      change (ResizeObserverSPI.parameter1 [VObj o]) with (VObj o). cbn zeta.
      rewrite (bind_ok _ _ _ _ _ (validate_Element env (VObj o) [] (VObj o) w He Ha)).
      cbn [negb]. rewrite (bind_ok _ _ _ _ _ Hhas).
      unfold bind at 1. cbn [ResizeObserverSPI.new_ResizeObservation]. fold w1.
      by rewrite (bind_throw _ _ _ _ _ Hset). }
    rewrite Hobs. by repeat split.
Qed.

Lemma C10_inextensible_key_is_refused_witness :
  TagShim.set (VObj 1) (Ref O) (TagShim.mkShim [] "tag" 0 0, Example.host_frozen)
  = (Throw (TypeError "Cannot use inextensible object as keys with MapShim!"),
     (TagShim.mkShim [] "tag" 0 0, Example.host_frozen))
  ∧ (ResizeObserverSPI.observe TagShim_impl Example.env_shim [VObj 1]
       Example.tagged_world).1
    = Throw (TypeError "Cannot use inextensible object as keys with MapShim!").
Proof.
  assert (Ho : 1%positive ∈ inextensible Example.host_frozen)
    by (vm_compute; reflexivity).
  destruct (C10_inextensible_key_is_refused Example.host_frozen 1%positive Ho)
    as [Hmap Hspi].
  split.
  - exact (proj1 (Hmap ObsRef (TagShim.mkShim [] "tag" 0 0) (Ref O))).
  - exact (proj1 (Hspi Example.env_shim Example.tagged_world eq_refl eq_refl eq_refl)).
Defined.

Section TagShimOnOneKey.
Context {V : Type}.
Implicit Types (m : TagShim.Shim V) (h : Host) (o : positive) (v : V).

(** [set] of an extensible object on a map with no entry: the object
    gets the identifier of the map under its tag, and the entry goes
    under the tag followed by the identifier. *)
Lemma set_first m h o v :
  o ∉ inextensible h → TagShim.entries_ m = [] →
  TagShim.set (VObj o) v (m, h)
  = (Ok tt,
     (TagShim.mkShim
        [(TagShim.tag_ m +:+ pretty (TagShim.ToInt32 (TagShim.id_ m)), (VObj o, v))]
        (TagShim.tag_ m) (TagShim.size_ m + 1) (TagShim.id_ m + 1),
      set_props (<[(o, TagShim.tag_ m) := TagShim.ToInt32 (TagShim.id_ m)]>) h)).
Proof.
  intros Ho He. unfold TagShim.set. unfold bind at 1.
  assert (Hfalsy : ∃ t, TagShim.getTag_ (VObj o) (m, h) = (Ok t, (m, h))
                        ∧ ∃ f, TagShim.exists_ t (m, h) = (Ok f, (m, h))
                               ∧ truthy f = false).
  { unfold TagShim.getTag_, bind, TagShim.host, TagShim.this, gets.
    cbn -[isExtensible]. rewrite isExtensible_plain by done. cbn [andb].
    destruct (has_property h o (TagShim.tag_ m)).
    - eexists. split; [reflexivity|]. unfold TagShim.exists_, bind, TagShim.this, gets.
      cbn [fst]. rewrite He. destruct (props h !! (o, TagShim.tag_ m)); cbn.
      + case_bool_decide; eexists; (split; [reflexivity|]); [|done].
        cbn. by rewrite bool_decide_true.
      + by eexists.
    - eexists. split; [reflexivity|]. by eexists. }
  destruct Hfalsy as (t & -> & f & Hex & Hf).
  unfold bind at 1. rewrite Hex, Hf.
  unfold TagShim.insert_, bind, TagShim.host, TagShim.this, gets.
  cbn -[isExtensible]. rewrite isExtensible_plain by done. cbn.
  rewrite bool_decide_true by done. unfold TagShim.set_id, modify, ret. cbn.
  by rewrite He.
Qed.

(** On a map whose one entry is that of the object [o], under a tag that
    starts with the prefix. *)
Context (u : string) (size id next : Z) (h : Host) (o : positive).
Let tag := TagShim.tagPrefix +:+ u.
Let one (v : V) : TagShim.Shim V :=
  TagShim.mkShim [(tag +:+ pretty id, (VObj o, v))] tag size next.
Hypothesis extensible : o ∉ inextensible h.
Hypothesis tagged : props h !! (o, tag) = Some id.

Lemma getTag_one v :
  TagShim.getTag_ (VObj o) (one v, h) = (Ok (Some (tag +:+ pretty id)), (one v, h)).
Proof.
  unfold TagShim.getTag_, bind, TagShim.host, TagShim.this, gets.
  cbn -[isExtensible tag]. rewrite isExtensible_plain by done.
  unfold has_property. rewrite tagged. rewrite bool_decide_true by done. reflexivity.
Qed.

Lemma tag_nonempty (x : string) : tag +:+ x ≠ EmptyString.
Proof. unfold tag, TagShim.tagPrefix. cbn. discriminate. Qed.

Lemma mem_one v : Obj.mem [(tag +:+ pretty id, (VObj o, v))] (tag +:+ pretty id) = true.
Proof.
  unfold Obj.mem, Assoc.mem. cbn -[pretty tag].
  rewrite (bool_decide_true (_ = _)) by done. by apply bool_decide_true.
Qed.

Lemma exists_one v :
  TagShim.exists_ (Some (tag +:+ pretty id)) (one v, h) = (Ok (VBool true), (one v, h)).
Proof.
  unfold TagShim.exists_, bind, TagShim.this, gets. cbn -[pretty tag Obj.mem].
  rewrite bool_decide_false by apply tag_nonempty. by rewrite mem_one.
Qed.

Lemma has_one v : TagShim.has (VObj o) (one v, h) = (Ok (VBool true), (one v, h)).
Proof.
  unfold TagShim.has. rewrite (bind_ok _ _ _ _ _ (getTag_one v)). apply exists_one.
Qed.

Lemma get_one v : TagShim.get (VObj o) (one v, h) = (Ok (Some v), (one v, h)).
Proof.
  unfold TagShim.get. rewrite (bind_ok _ _ _ _ _ (getTag_one v)).
  rewrite (bind_ok _ _ _ _ _ (exists_one v)). cbn [truthy].
  unfold bind, TagShim.entry_at, TagShim.this, gets. cbn -[pretty tag].
  by rewrite bool_decide_true.
Qed.

Lemma set_one v v' : TagShim.set (VObj o) v' (one v, h) = (Ok tt, (one v', h)).
Proof.
  unfold TagShim.set. rewrite (bind_ok _ _ _ _ _ (getTag_one v)).
  rewrite (bind_ok _ _ _ _ _ (exists_one v)). cbn [truthy].
  unfold bind, TagShim.entry_at, TagShim.this, gets. cbn -[pretty tag].
  rewrite bool_decide_true by done. unfold TagShim.set_entries, modify.
  cbn -[pretty tag]. by rewrite bool_decide_true.
Qed.

Lemma delete_one v :
  TagShim.delete (VObj o) (one v, h)
  = (Ok true, (TagShim.mkShim [] tag (size - 1) next,
               set_props (base.delete (o, tag)) h)).
Proof.
  unfold TagShim.delete. rewrite (bind_ok _ _ _ _ _ (getTag_one v)).
  rewrite (bind_ok _ _ _ _ _ (exists_one v)). cbn [truthy negb].
  unfold bind, TagShim.set_entries, TagShim.set_size, TagShim.this, gets, modify.
  cbn -[pretty tag]. by rewrite bool_decide_true.
Qed.
End TagShimOnOneKey.

(** C9.  The claim is that the array-backed and the tag-backed [Shim]
    give the same results on every sequence of operations over
    extensible objects.  They do not: after [set(k, v)], the tag-backed
    map finds [k] and the array-backed one does not, so that [has], [get],
    the size after a second [set] and [delete] all differ.  And on a new
    map, [has] of an object that bears no tag is [false] on the
    array-backed map and [undefined] on the tag-backed one. *)
Theorem C9_the_two_shims_differ
    {V : Type} `{!Stringify V} (h : Host) (o : positive) (v v' : V) :
  o ∉ inextensible h →
  let k := VObj o in
  let ops := [OpSet k v; OpHas k; OpGet k; OpSet k v'; OpSize; OpDelete k; OpSize] in
  ArrayShim_results h ops
  = [RThis; RJS (VBool false); RValue None; RThis; RJS (VNum 2);
     RJS (VBool false); RJS (VNum 2)]
  ∧ TagShim_results h ops
    = [RThis; RJS (VBool true); RValue (Some v); RThis; RJS (VNum 1);
       RJS (VBool true); RJS (VNum 0)]
  ∧ ((∀ name, props h !! (o, name) = None) →
     ArrayShim_results (V := V) h [OpHas k] = [RJS (VBool false)]
     ∧ TagShim_results (V := V) h [OpHas k] = [RJS VUndefined]).
Proof.
  intros Ho k ops. subst k ops. split; [|split].
  - unfold ArrayShim_results. cbn [run ArrayShim_step]. unfold returned.
    rewrite set_pushes. cbn [fst snd]. rewrite has_false, get_undefined, set_pushes.
    cbn [fst snd]. by rewrite delete_false.
  - unfold TagShim_results.
    destruct (constructor_result (V := V) h) as (u & n & ->).
    cbn [run TagShim_step]. unfold returned at 1.
    rewrite set_first by done. cbn [TagShim.tag_ TagShim.size_ TagShim.id_].
    change (TagShim.ToInt32 0) with 0.
    set (h1 := set_props (<[(o, TagShim.tagPrefix +:+ u) := 0]>) (set_draws n h)).
    assert (Hext : o ∉ inextensible h1) by done.
    assert (Htag : props h1 !! (o, TagShim.tagPrefix +:+ u) = Some 0)
      by apply lookup_insert_eq.
    unfold returned.
    rewrite (has_one u (0 + 1) 0 (0 + 1) h1 o Hext Htag v).
    rewrite (get_one u (0 + 1) 0 (0 + 1) h1 o Hext Htag v).
    rewrite (set_one u (0 + 1) 0 (0 + 1) h1 o Hext Htag v v').
    rewrite (delete_one u (0 + 1) 0 (0 + 1) h1 o Hext Htag v').
    reflexivity.
  - intros Hplain. split.
    + unfold ArrayShim_results. cbn [run ArrayShim_step]. unfold returned.
      by rewrite has_false.
    + unfold TagShim_results.
      destruct (constructor_result (V := V) h) as (u & n & ->).
      cbn [run TagShim_step]. unfold returned.
      rewrite has_untagged; [done|]. apply Hplain.
Qed.

Lemma C9_the_two_shims_differ_witness :
  let ops := [OpSet (VObj 1) (VNum 7); OpHas (VObj 1)] in
  take 2 (ArrayShim_results Example.host0
            (ops ++ [OpGet (VObj 1); OpSet (VObj 1) (VNum 8); OpSize;
                     OpDelete (VObj 1); OpSize]))
  = [RThis; RJS (VBool false)]
  ∧ take 2 (TagShim_results Example.host0
              (ops ++ [OpGet (VObj 1); OpSet (VObj 1) (VNum 8); OpSize;
                       OpDelete (VObj 1); OpSize]))
    = [RThis; RJS (VBool true)]
  ∧ TagShim_results (V := JSValue) Example.host0 [OpHas (VObj 1)] = [RJS VUndefined].
Proof.
  intros ops.
  assert (Ho : 1%positive ∉ inextensible Example.host0) by apply not_elem_of_empty.
  destruct (C9_the_two_shims_differ Example.host0 1%positive (VNum 7) (VNum 8) Ho)
    as (Harray & Htag & Hhas).
  split; [|split].
  - subst ops. cbn [app]. by rewrite Harray.
  - subst ops. cbn [app]. by rewrite Htag.
  - apply Hhas. intros name. apply lookup_empty.
Defined.

(* ===================================================================== *)
(** * More properties of the code *)
(* ===================================================================== *)

(** ** Association lists under a renaming of their keys *)

Section AssocNamed.
Context {K N A : Type} `{!EqDecision K, !EqDecision N} (f : K → N).
Implicit Types (l : list (K * A)) (k : K) (a : A).

Local Abbreviation named := (fmap (M := list) (λ kv : K * A, (f kv.1, kv))).

Lemma separates_cons n b l k0 :
  separates f ((n, b) :: l) k0 → (f n = f k0 → n = k0) ∧ separates f l k0.
Proof.
  intros H. split.
  - apply H. left.
  - intros k Hk. apply H. by right.
Qed.

Lemma get_named l k0 :
  separates f l k0 →
  Assoc.get (named l) (f k0) = (λ a, (k0, a)) <$> Assoc.get l k0.
Proof.
  induction l as [|[n b] l IH]; intros H; [done|].
  apply separates_cons in H as [Hn H]. cbn.
  destruct (decide (n = k0)) as [->|Hne].
  - by rewrite !bool_decide_true.
  - rewrite (bool_decide_false (n = k0)) by done.
    rewrite bool_decide_false by (intros E; by apply Hne, Hn). by apply IH.
Qed.

Lemma mem_named l k0 :
  separates f l k0 → Assoc.mem (named l) (f k0) = Assoc.mem l k0.
Proof.
  intros H. unfold Assoc.mem. rewrite get_named by done.
  apply bool_decide_ext. by rewrite fmap_is_Some.
Qed.

Lemma assign_named l k0 a :
  separates f l k0 →
  Assoc.assign (named l) (f k0) (k0, a) = named (Assoc.assign l k0 a).
Proof.
  induction l as [|[n b] l IH]; intros H; [done|].
  apply separates_cons in H as [Hn H]. cbn.
  destruct (decide (n = k0)) as [->|Hne].
  - by rewrite !bool_decide_true.
  - rewrite (bool_decide_false (n = k0)) by done.
    rewrite bool_decide_false by (intros E; by apply Hne, Hn).
    cbn. by rewrite IH.
Qed.


(** Where the names of the keys differ, [f] tells every key of the list
    from the others. *)
Lemma NoDup_separates l k0 :
  NoDup (f <$> l.*1) → k0 ∈ l.*1 → separates f l k0.
Proof.
  induction l as [|[n b] l IH]; intros Hnd Hin; [by apply elem_of_nil in Hin|].
  cbn in Hnd. apply NoDup_cons in Hnd as [Hn Hnd].
  intros k Hk E. cbn in Hk, Hin.
  apply elem_of_cons in Hk as [->|Hk]; apply elem_of_cons in Hin as [->|Hin]; try done.
  - exfalso. apply Hn. rewrite E. by apply list_elem_of_fmap_2.
  - exfalso. apply Hn. rewrite <- E. by apply list_elem_of_fmap_2.
  - by apply IH.
Qed.
End AssocNamed.

(** ** More on association lists *)

Section AssocMore.
Context {K A : Type} `{!EqDecision K}.
Implicit Types (o : list (K * A)) (k : K) (a : A).

Lemma Assoc_get_None o k : k ∉ o.*1 → Assoc.get o k = None.
Proof.
  intros H. destruct (Assoc.get o k) eqn:E; [|done].
  exfalso. apply H, Assoc_get_is_Some. by rewrite E.
Qed.

Lemma Assoc_assign_present o k a : k ∈ o.*1 → (Assoc.assign o k a).*1 = o.*1.
Proof.
  induction o as [|[n b] o IH]; intros H; [by apply elem_of_nil in H|].
  cbn. destruct (decide (n = k)) as [->|E].
  - by rewrite bool_decide_true.
  - rewrite bool_decide_false by done. cbn. f_equal. apply IH.
    cbn in H. apply elem_of_cons in H as [?|?]; [congruence | done].
Qed.


Lemma Assoc_get_assign o k a : Assoc.get (Assoc.assign o k a) k = Some a.
Proof.
  induction o as [|[n b] o IH]; cbn.
  - by rewrite bool_decide_true.
  - destruct (decide (n = k)) as [->|E].
    + rewrite bool_decide_true by done. cbn. by rewrite bool_decide_true.
    + rewrite bool_decide_false by done. cbn. by rewrite bool_decide_false.
Qed.




End AssocMore.

(** ** The tag-backed [Shim] on the objects it tagged *)

Lemma tag_first (T : string) :
  String.prefix TagShim.tagPrefix T = true → ∃ T', T = String "_" T'.
Proof.
  destruct T as [|c T]; [done|]. unfold TagShim.tagPrefix.
  cbn [String.prefix]. destruct (Ascii.ascii_dec "_" c) as [<-|]; [by eexists | done].
Qed.

Lemma name_not_empty (T x : string) :
  String.prefix TagShim.tagPrefix T = true → T +:+ x ≠ EmptyString.
Proof. intros [T' ->]%tag_first. discriminate. Qed.

Lemma name_not_index (T x : string) :
  String.prefix TagShim.tagPrefix T = true → Obj.array_index (T +:+ x) = None.
Proof. intros [T' ->]%tag_first. reflexivity. Qed.

Lemma name_inj (T : string) (a b : Z) : T +:+ pretty a = T +:+ pretty b → a = b.
Proof. intros H%(inj (String.app T)). by apply (inj pretty). Qed.

Lemma ToInt32_small (x : Z) : -2 ^ 31 ≤ x < 2 ^ 31 → TagShim.ToInt32 x = x.
Proof. intros H. unfold TagShim.ToInt32. rewrite Z.mod_small; lia. Qed.

Section TaggedFacts.
Context {V : Type}.
Implicit Types (m : TagShim.Shim V) (h : Host) (o : positive) (v : V).
Implicit Types (data : list (JSValue * V)).

(** The tag of an extensible object is the tag of the map followed by
    the identifier that the object bears, if it bears one. *)
Lemma getTag_object m h o :
  o ∉ inextensible h →
  TagShim.getTag_ (VObj o) (m, h)
  = (Ok ((λ id : Z, TagShim.tag_ m +:+ pretty id) <$> props h !! (o, TagShim.tag_ m)),
     (m, h)).
Proof.
  intros Ho. unfold TagShim.getTag_, bind, TagShim.host, TagShim.this, gets.
  cbn -[isExtensible]. rewrite isExtensible_plain by done. unfold has_property.
  rewrite (bool_decide_true (TObject = TObject)) by done.
  destruct (props h !! (o, TagShim.tag_ m)) as [i|].
  - by rewrite bool_decide_true.
  - by rewrite bool_decide_false by (by intros []).
Qed.

Lemma exists_name m h (x : string) :
  String.prefix TagShim.tagPrefix (TagShim.tag_ m) = true →
  TagShim.exists_ (Some (TagShim.tag_ m +:+ x)) (m, h)
  = (Ok (VBool (Obj.mem (TagShim.entries_ m) (TagShim.tag_ m +:+ x))), (m, h)).
Proof.
  intros HT. unfold TagShim.exists_, bind, TagShim.this, gets. cbn -[Obj.mem].
  by rewrite bool_decide_false by by apply name_not_empty.
Qed.

Lemma entry_at_name m h (name : string) :
  TagShim.entry_at (Some name) (m, h)
  = match Obj.get (TagShim.entries_ m) name with
    | Some entry => (Ok entry, (m, h))
    | None => (Throw (TypeError "Cannot read properties of undefined"), (m, h))
    end.
Proof.
  unfold TagShim.entry_at, bind, TagShim.this, gets. cbn.
  by destruct (Obj.get (TagShim.entries_ m) name).
Qed.

Context (m : TagShim.Shim V) (h : Host) (data : list (JSValue * V)).
Context (Hwf : Tagged.wf (m, h) data).
Local Abbreviation T := (TagShim.tag_ m).

Lemma wf_tag' : String.prefix TagShim.tagPrefix T = true.
Proof. apply Hwf. Qed.

Lemma wf_entries' : TagShim.entries_ m = Tagged.named T h data.
Proof. apply Hwf. Qed.

Lemma wf_names' : NoDup (Tagged.nameof T h <$> data.*1).
Proof. apply Hwf. Qed.

Lemma wf_size' : TagShim.size_ m = Z.of_nat (length data).
Proof. apply Hwf. Qed.

Lemma wf_id' : 0 ≤ TagShim.id_ m < 2 ^ 31.
Proof. apply Hwf. Qed.

Lemma wf_key_tagged o :
  VObj o ∈ data.*1 → ∃ id, props h !! (o, T) = Some id ∧ 0 ≤ id < TagShim.id_ m.
Proof.
  intros Hin. destruct (Tagged.wf_keys _ _ Hwf _ Hin) as (o' & i & [= <-] & ? & ?).
  by exists i.
Qed.

Lemma wf_untagged o : VObj o ∉ data.*1 → props h !! (o, T) = None.
Proof.
  intros Hnot. destruct (props h !! (o, T)) as [i|] eqn:E; [|done].
  exfalso. apply Hnot. by eapply (Tagged.wf_tagged _ _ Hwf).
Qed.


Lemma wf_nameof o id :
  props h !! (o, T) = Some id → Tagged.nameof T h (VObj o) = T +:+ pretty id.
Proof. intros H. cbn. by rewrite H. Qed.

(** [has] of an extensible object: [true] if it is a key, [undefined]
    if not. *)
Lemma wf_has o :
  o ∉ inextensible h →
  TagShim.has (VObj o) (m, h)
  = (Ok (if Assoc.mem data (VObj o) then VBool true else VUndefined), (m, h)).
Proof.
  intros Ho. unfold TagShim.has. rewrite (bind_ok _ _ _ _ _ (getTag_object m h o Ho)).
  rewrite Assoc_mem_elem_of.
  destruct (decide (VObj o ∈ data.*1)) as [Hin|Hnot].
  - destruct (wf_key_tagged o Hin) as (i & Hid & _). rewrite Hid. cbn [fmap option_fmap option_map].
    rewrite exists_name by apply wf_tag'. rewrite bool_decide_true by done.
    rewrite <- (wf_nameof o i Hid), wf_entries'.
    unfold Obj.mem, Tagged.named. cbn [fst snd].
    rewrite (mem_named (Tagged.nameof T h)).
    + rewrite Assoc_mem_elem_of. by rewrite bool_decide_true.
    + apply NoDup_separates; [apply wf_names' | done].
  - rewrite (wf_untagged o Hnot). by rewrite bool_decide_false.
Qed.

(** [get] of an extensible object is its value in the entries. *)
Lemma wf_get o :
  o ∉ inextensible h →
  TagShim.get (VObj o) (m, h) = (Ok (Assoc.get data (VObj o)), (m, h)).
Proof.
  intros Ho. unfold TagShim.get. rewrite (bind_ok _ _ _ _ _ (getTag_object m h o Ho)).
  destruct (decide (VObj o ∈ data.*1)) as [Hin|Hnot].
  - destruct (wf_key_tagged o Hin) as (i & Hid & _). rewrite Hid.
    cbn [fmap option_fmap option_map].
    rewrite (bind_ok _ _ _ _ _ (exists_name m h (pretty i) wf_tag')).
    assert (Hget : Obj.get (TagShim.entries_ m) (T +:+ pretty i)
                   = (λ a, (VObj o, a)) <$> Assoc.get data (VObj o)).
    { rewrite <- (wf_nameof o i Hid), wf_entries'.
      unfold Obj.get, Tagged.named. cbn [fst snd].
      apply (get_named (Tagged.nameof T h)).
      apply NoDup_separates; [apply wf_names' | done]. }
    assert (Hmem : Obj.mem (TagShim.entries_ m) (T +:+ pretty i) = true).
    { unfold Obj.mem, Assoc.mem. unfold Obj.get in Hget. rewrite Hget.
      apply bool_decide_true, fmap_is_Some, Assoc_get_is_Some, Hin. }
    rewrite Hmem. cbn [truthy].
    unfold bind at 1. rewrite entry_at_name, Hget.
    destruct (Assoc.get data (VObj o)) as [a|] eqn:E; [done|].
    exfalso. apply Assoc_get_is_Some in Hin. rewrite E in Hin. by destruct Hin.
  - rewrite (wf_untagged o Hnot). cbn. by rewrite Assoc_get_None.
Qed.
Lemma names_of_named (tag : string) (h' : Host) (l : list (JSValue * V)) :
  (Tagged.named tag h' l).*1 = Tagged.nameof tag h' <$> l.*1.
Proof. unfold Tagged.named. rewrite <- !list_fmap_compose. by apply list_fmap_ext. Qed.

(** Writing the tag of the object [o] changes the name of no other
    key. *)
Lemma nameof_other (f : gmap (positive * string) Z → gmap (positive * string) Z)
    o (k : JSValue) :
  (∀ o', o' ≠ o → f (props h) !! (o', T) = props h !! (o', T)) →
  k ≠ VObj o →
  Tagged.nameof T (set_props f h) k = Tagged.nameof T h k.
Proof.
  intros Hf Hk. destruct k as [| | | | |o']; try done. cbn.
  rewrite Hf; [done|]. congruence.
Qed.

Lemma named_other (f : gmap (positive * string) Z → gmap (positive * string) Z)
    o (l : list (JSValue * V)) :
  (∀ o', o' ≠ o → f (props h) !! (o', T) = props h !! (o', T)) →
  VObj o ∉ l.*1 →
  Tagged.named T (set_props f h) l = Tagged.named T h l.
Proof.
  intros Hf Hl. unfold Tagged.named. apply list_fmap_ext. intros _ [k a] Hin%list_elem_of_lookup_2.
  cbn. f_equal. apply (nameof_other f o); [done|].
  intros ->. apply Hl. apply list_elem_of_fmap. by exists (VObj o, a).
Qed.

(** The name that the next identifier gives is in use by no entry. *)
Lemma next_name_fresh :
  T +:+ pretty (TagShim.id_ m) ∉ Tagged.nameof T h <$> data.*1.
Proof.
  intros (k & Hname & Hk)%list_elem_of_fmap.
  destruct (Tagged.wf_keys _ _ Hwf _ Hk) as (o' & i & -> & Hi & Hlt).
  cbn in Hi, Hlt. rewrite (wf_nameof o' i Hi) in Hname.
  apply name_inj in Hname. lia.
Qed.

(** [set] on an extensible object that is a key: its value is replaced,
    in place. *)
Lemma wf_set_present o v :
  o ∉ inextensible h → VObj o ∈ data.*1 →
  let s' := (TagShim.mkShim (Tagged.named T h (Assoc.assign data (VObj o) v)) T
               (TagShim.size_ m) (TagShim.id_ m), h) in
  TagShim.set (VObj o) v (m, h) = (Ok tt, s')
  ∧ Tagged.wf s' (Assoc.assign data (VObj o) v).
Proof.
  intros Ho Hin s'. subst s'.
  destruct (wf_key_tagged o Hin) as (i & Hid & _).
  assert (Hsep : separates (Tagged.nameof T h) data (VObj o))
    by (apply NoDup_separates; [apply wf_names' | done]).
  assert (Hget : Obj.get (TagShim.entries_ m) (T +:+ pretty i)
                 = (λ a, (VObj o, a)) <$> Assoc.get data (VObj o)).
  { rewrite <- (wf_nameof o i Hid), wf_entries'. by apply (get_named (Tagged.nameof T h)). }
  destruct (Assoc.get data (VObj o)) as [a|] eqn:E.
  2:{ apply Assoc_get_is_Some in Hin. rewrite E in Hin. by destruct Hin. }
  split.
  - unfold TagShim.set. rewrite (bind_ok _ _ _ _ _ (getTag_object m h o Ho)), Hid.
    cbn [fmap option_fmap option_map].
    rewrite (bind_ok _ _ _ _ _ (exists_name m h (pretty i) wf_tag')).
    unfold Obj.mem, Assoc.mem. unfold Obj.get in Hget. rewrite Hget.
    rewrite bool_decide_true by done. cbn [truthy].
    unfold bind at 1. rewrite entry_at_name. unfold Obj.get. rewrite Hget.
    cbn [fmap option_fmap option_map default from_option fst].
    unfold TagShim.set_entries, modify. cbn [fst snd].
    rewrite <- (wf_nameof o i Hid), wf_entries'. unfold Obj.assign, Tagged.named, id.
    by rewrite (assign_named (Tagged.nameof T h)).
  - assert (Hkeys : (Assoc.assign data (VObj o) v).*1 = data.*1)
      by by apply Assoc_assign_present.
    constructor; cbn [fst snd TagShim.tag_ TagShim.entries_ TagShim.size_ TagShim.id_].
    + apply wf_tag'.
    + reflexivity.
    + rewrite Hkeys. apply Hwf.
    + rewrite Hkeys. apply Hwf.
    + rewrite Hkeys. apply wf_names'.
    + rewrite wf_size'. f_equal.
      rewrite <- (length_fmap fst data), <- Hkeys. by rewrite length_fmap.
    + apply Hwf.
Qed.

(** [set] on an extensible object that is no key: the object gets the
    next identifier and a new entry goes last. *)
Lemma wf_set_new o v :
  o ∉ inextensible h → VObj o ∉ data.*1 → TagShim.id_ m < 2 ^ 31 - 1 →
  let s' := (TagShim.mkShim
               (TagShim.entries_ m ++ [(T +:+ pretty (TagShim.id_ m), (VObj o, v))])
               T (TagShim.size_ m + 1) (TagShim.id_ m + 1),
             set_props (<[(o, T) := TagShim.id_ m]>) h) in
  TagShim.set (VObj o) v (m, h) = (Ok tt, s')
  ∧ Tagged.wf s' (data ++ [(VObj o, v)]).
Proof.
  intros Ho Hnot Hid s'. subst s'.
  pose proof wf_id' as Hrange.
  assert (Hfresh : Assoc.mem (TagShim.entries_ m) (T +:+ pretty (TagShim.id_ m)) = false).
  { rewrite Assoc_mem_elem_of. apply bool_decide_false.
    rewrite wf_entries', names_of_named. apply next_name_fresh. }
  assert (Hother : ∀ o', o' ≠ o →
            <[(o, T) := TagShim.id_ m]> (props h) !! (o', T) = props h !! (o', T)).
  { intros o' Hne. apply lookup_insert_ne. congruence. }
  split.
  - unfold TagShim.set. rewrite (bind_ok _ _ _ _ _ (getTag_object m h o Ho)).
    rewrite (wf_untagged o Hnot). cbn [fmap option_fmap option_map].
    unfold bind at 1. cbn [TagShim.exists_ TagShim.this gets]. unfold bind at 1.
    cbn [fst ret truthy].
    unfold TagShim.insert_, bind, TagShim.host, TagShim.this, gets.
    cbn -[isExtensible Z.pow]. rewrite isExtensible_plain by done.
    rewrite (bool_decide_true (TObject = TObject)) by done.
    unfold TagShim.set_id, TagShim.set_size, TagShim.set_entries, modify, ret.
    cbn -[Z.pow]. rewrite ToInt32_small by lia.
    unfold Obj.assign. by rewrite Assoc_assign_fresh.
  - constructor; cbn [fst snd TagShim.tag_ TagShim.entries_ TagShim.size_ TagShim.id_].
    + apply wf_tag'.
    + transitivity
        (Tagged.named T (set_props <[(o, T):=TagShim.id_ m]> h) data
         ++ Tagged.named T (set_props <[(o, T):=TagShim.id_ m]> h) [(VObj o, v)]).
      * rewrite (named_other (<[(o, T):=TagShim.id_ m]>) o data Hother Hnot).
        rewrite wf_entries'. f_equal. cbn. by rewrite lookup_insert_eq.
      * unfold Tagged.named. by rewrite fmap_app.
    + intros k. rewrite fmap_app, elem_of_app. intros [Hk|Hk].
      * destruct (Tagged.wf_keys _ _ Hwf _ Hk) as (o' & i & -> & Hi & Hlt).
        cbn in Hi, Hlt. exists o', i. split; [done|]. split; [|lia].
        cbn. rewrite lookup_insert_ne; [done|]. intros [= ->]. by apply Hnot.
      * apply list_elem_of_singleton in Hk as ->. exists o, (TagShim.id_ m).
        split; [done|]. split; [|lia]. cbn. by rewrite lookup_insert_eq.
    + intros o' i. cbn. rewrite fmap_app, elem_of_app.
      destruct (decide (o' = o)) as [->|Hne].
      * intros _. right. by apply list_elem_of_singleton.
      * rewrite lookup_insert_ne by congruence. intros Hi. left.
        by eapply (Tagged.wf_tagged _ _ Hwf).
    + rewrite fmap_app, fmap_app. apply NoDup_app. split; [|split].
      * erewrite list_fmap_ext; [apply wf_names'|].
        intros _ k Hk%list_elem_of_lookup_2. apply (nameof_other _ o); [done|].
        intros ->. by apply Hnot.
      * intros name Hname Hin. apply list_elem_of_singleton in Hin.
        cbn in Hin. rewrite lookup_insert_eq in Hin. cbn in Hin. subst name.
        apply next_name_fresh.
        erewrite list_fmap_ext; [exact Hname|].
        intros _ k Hk%list_elem_of_lookup_2. symmetry. apply (nameof_other _ o); [done|].
        intros ->. by apply Hnot.
      * apply NoDup_singleton.
    + rewrite wf_size', length_app. cbn. lia.
    + lia.
Qed.

End TaggedFacts.

Section TaggedOps.
Context {V : Type}.
Implicit Types (m : TagShim.Shim V) (h : Host) (o : positive) (v : V).
Implicit Types (data : list (JSValue * V)).

(** [set] on an extensible object keeps the invariant, for the entries
    with the value of the object assigned. *)
Lemma wf_set m h data o v :
  Tagged.wf (m, h) data → o ∉ inextensible h → TagShim.id_ m < 2 ^ 31 - 1 →
  ∃ m' h',
    TagShim.set (VObj o) v (m, h) = (Ok tt, (m', h'))
    ∧ Tagged.wf (m', h') (Assoc.assign data (VObj o) v)
    ∧ inextensible h' = inextensible h
    ∧ TagShim.tag_ m' = TagShim.tag_ m
    ∧ TagShim.id_ m' ≤ TagShim.id_ m + 1.
Proof.
  intros Hwf Ho Hid. destruct (decide (VObj o ∈ data.*1)) as [Hin|Hnot].
  - destruct (wf_set_present m h data Hwf o v Ho Hin) as [Hset Hwf'].
    eexists _, _. split; [exact Hset|]. split; [exact Hwf'|]. cbn. repeat split. lia.
  - destruct (wf_set_new m h data Hwf o v Ho Hnot Hid) as [Hset Hwf'].
    eexists _, _. split; [exact Hset|]. rewrite Assoc_assign_fresh.
    + split; [exact Hwf'|]. cbn. repeat split. lia.
    + rewrite Assoc_mem_elem_of. by apply bool_decide_false.
Qed.

End TaggedOps.

(** ** The tag-backed [Shim] as a map of extensible objects *)

Section TaggedMap.
Context {V : Type}.
Implicit Types (m : TagShim.Shim V) (h : Host) (o : positive) (v : V).
Implicit Types (data : list (JSValue * V)).

(** A map with no entry, under a tag that no object bears, holds no
    entries. *)
Lemma wf_empty (tag : string) h :
  String.prefix TagShim.tagPrefix tag = true →
  (∀ o, props h !! (o, tag) = None) →
  Tagged.wf (V := V) (TagShim.mkShim [] tag 0 0, h) [].
Proof.
  intros Htag Hfresh. constructor; cbn; try done.
  - intros k Hk. by apply elem_of_nil in Hk.
  - intros o i. by rewrite Hfresh.
  - apply NoDup_nil_2.
Qed.


Lemma clear_result m h :
  ∃ (u : string) (n : nat),
    TagShim.clear (m, h)
    = (Ok tt, (TagShim.mkShim [] (TagShim.tagPrefix +:+ u) 0 0, set_draws n h)).
Proof.
  destruct (generateTag_result h) as (u & n & Hg). exists u, n.
  unfold TagShim.clear, bind, modify, TagShim.on_host, zoom.
  cbn [fst snd]. by rewrite Hg.
Qed.
End TaggedMap.



Section AssocRemoved.
Context {K A : Type} `{!EqDecision K}.
Implicit Types (o : list (K * A)) (k : K) (a : A).



Lemma Assoc_mem_assign o k a : Assoc.mem (Assoc.assign o k a) k = true.
Proof. unfold Assoc.mem. rewrite Assoc_get_assign. by apply bool_decide_true. Qed.
End AssocRemoved.

(** The two maps of the instances hold what they are said to hold. *)
Lemma wf_empty0 : Tagged.wf (Example2.empty0, Example.host0) [].
Proof. apply wf_empty; [vm_compute; reflexivity|]. intros o. vm_compute. reflexivity. Defined.

Lemma not_inextensible0 (o : positive) : o ∉ inextensible Example.host0.
Proof. vm_compute. intros H. inversion H. Defined.



Lemma wf_one0 : Tagged.wf Example2.one0 [(VObj 1, VNum 7)].
Proof.
  assert (VObj 1 ∉ ([] : list (JSValue * JSValue)).*1) as Hnot by apply not_elem_of_nil.
  assert (TagShim.id_ Example2.empty0 < 2 ^ 31 - 1) as Hid by (vm_compute; reflexivity).
  pose proof (proj2 (wf_set_new Example2.empty0 Example.host0 [] wf_empty0
                       1 (VNum 7) (not_inextensible0 1) Hnot Hid)) as H.
  vm_compute in H. vm_compute. exact H.
Qed.

Lemma not_inextensible_one0 (o : positive) : o ∉ inextensible Example2.one0.2.
Proof. vm_compute. intros H. inversion H. Defined.








(** ** The order of [forEach] on the tag-backed [Shim] *)

Section ForEach.
Context {V : Type}.
Implicit Types (m : TagShim.Shim V) (h : Host) (data : list (JSValue * V)).

Lemma for_each_collect {A : Type} (f : A → V * JSValue) (l : list A)
    (visited : list (V * JSValue)) :
  for_each (λ x, collect (f x).1 (f x).2) l visited = (Ok tt, visited ++ (f <$> l)).
Proof.
  revert visited. induction l as [|x l IH]; intros visited.
  - cbn. unfold ret. by rewrite app_nil_r.
  - cbn [for_each]. unfold bind. unfold collect at 1. unfold modify at 1.
    rewrite IH. rewrite fmap_cons, <- app_assoc. by destruct (f x).
Qed.

Lemma nameof_not_index (tag : string) h (k : JSValue) :
  String.prefix TagShim.tagPrefix tag = true →
  Obj.array_index (Tagged.nameof tag h k) = None.
Proof. intros Htag. destruct k; try done. by apply name_not_index. Qed.

Lemma index_entries_named (tag : string) h data :
  String.prefix TagShim.tagPrefix tag = true →
  Obj.index_entries (Tagged.named tag h data) = [].
Proof.
  intros Htag. induction data as [|[k v] data IH]; [done|].
  unfold Obj.index_entries, Tagged.named in *. rewrite fmap_cons. cbn [omap list_omap].
  cbn [fst snd]. rewrite nameof_not_index by done. cbn. exact IH.
Qed.

(** No name of an entry is an array index, so [for ... in] visits the
    entries in the order of their creation. *)
Lemma for_in_named (tag : string) h data :
  String.prefix TagShim.tagPrefix tag = true →
  Obj.for_in (Tagged.named tag h data) = Tagged.named tag h data.
Proof.
  intros Htag. unfold Obj.for_in. rewrite index_entries_named by done.
  change (snd <$> merge_sort Obj.index_le []) with (@nil (string * (JSValue * V))).
  rewrite app_nil_l. induction data as [|[k v] data IH]; [done|].
  unfold Tagged.named in *. rewrite fmap_cons. unfold filter. cbn [list_filter].
  destruct (decide _) as [_|Hn]; [f_equal; exact IH|].
  destruct Hn. cbn. by apply nameof_not_index.
Qed.

Lemma wf_forEach m h data (visited : list (V * JSValue)) :
  Tagged.wf (m, h) data →
  TagShim.forEach collect m visited
  = (Ok tt, visited ++ ((λ kv, (kv.2, kv.1)) <$> data)).
Proof.
  intros Hwf. unfold TagShim.forEach.
  rewrite (wf_entries' m h data Hwf), for_in_named by apply (wf_tag' m h data Hwf).
  rewrite (for_each_collect (λ p : string * (JSValue * V), (p.2.2, p.2.1))).
  f_equal. f_equal. unfold Tagged.named. rewrite <- list_fmap_compose.
  by apply list_fmap_ext.
Qed.
End ForEach.



(** ** The tag-backed [Shim] on keys that are no objects *)

Section Primitives.
Context {V : Type}.
Implicit Types (m : TagShim.Shim V) (h : Host) (k : JSValue) (v : V) (t : string).

(** The tag of a primitive is its string. *)
Lemma getTag_primitive m h k :
  typeof k ≠ TObject → k ≠ VUndefined →
  TagShim.getTag_ k (m, h) = (Ok (Some (join_element h k)), (m, h)).
Proof. intros Ht Hu. by destruct k. Qed.

Lemma exists_string m h t :
  t ≠ EmptyString →
  TagShim.exists_ (Some t) (m, h) = (Ok (VBool (Obj.mem (TagShim.entries_ m) t)), (m, h)).
Proof.
  intros Ht. unfold TagShim.exists_, bind, TagShim.this, gets. cbn -[Obj.mem].
  by rewrite bool_decide_false.
Qed.

Lemma exists_empty m h :
  TagShim.exists_ (Some EmptyString) (m, h) = (Ok (VStr EmptyString), (m, h)).
Proof. reflexivity. Qed.

Lemma insert_primitive m h k v :
  typeof k ≠ TObject → k ≠ VUndefined →
  String.prefix TagShim.tagPrefix (join_element h k) = false →
  TagShim.insert_ k v (m, h)
  = (Ok tt, (TagShim.mkShim (Obj.assign (TagShim.entries_ m) (join_element h k) (k, v))
               (TagShim.tag_ m) (TagShim.size_ m + 1) (TagShim.id_ m + 1), h)).
Proof.
  intros Ht Hu Hp. unfold TagShim.insert_, bind, TagShim.host, TagShim.this, gets.
  destruct k; try done; cbn -[String.prefix TagShim.tagPrefix Obj.assign] in *;
    by rewrite Hp.
Qed.

Lemma insert_prefixed m h k v :
  typeof k ≠ TObject → k ≠ VUndefined →
  String.prefix TagShim.tagPrefix (join_element h k) = true →
  TagShim.insert_ k v (m, h)
  = (Throw (TypeError
      "Cannot use primitive that stringifies to a value prefixed by MapShim's tag prefix!"),
     (m, h)).
Proof.
  intros Ht Hu Hp. unfold TagShim.insert_, bind, TagShim.host, TagShim.this, gets.
  destruct k; try done; cbn -[String.prefix TagShim.tagPrefix Obj.assign] in *;
    by rewrite Hp.
Qed.



End Primitives.

(** X7.  The empty string is a key that is never found.  [set] on it
    returns normally and adds one to the size every time; [get] then
    returns [undefined], [has] returns the empty string, which is
    falsy, and [delete] returns [false] and removes nothing. *)
Theorem TagShim_empty_string_is_never_found
    {V : Type} (m : TagShim.Shim V) (h : Host) (v : V) :
  ∃ s',
    TagShim.set (VStr EmptyString) v (m, h) = (Ok tt, s')
    ∧ TagShim.size s'.1 = TagShim.size m + 1
    ∧ TagShim.get (VStr EmptyString) s' = (Ok None, s')
    ∧ TagShim.has (VStr EmptyString) s' = (Ok (VStr EmptyString), s')
    ∧ truthy (VStr EmptyString) = false
    ∧ TagShim.delete (VStr EmptyString) s' = (Ok false, s').
Proof.
  assert (TagShim.set (VStr EmptyString) v (m, h)
          = (Ok tt, (TagShim.mkShim
                       (Obj.assign (TagShim.entries_ m) EmptyString (VStr EmptyString, v))
                       (TagShim.tag_ m) (TagShim.size_ m + 1) (TagShim.id_ m + 1), h)))
    as Hset.
  { unfold TagShim.set.
    rewrite (bind_ok _ _ _ _ _
               (getTag_primitive m h (VStr EmptyString) ltac:(done) ltac:(done))).
    cbn [join_element]. rewrite (bind_ok _ _ _ _ _ (exists_empty m h)).
    cbn [truthy negb]. rewrite (bool_decide_true (EmptyString = EmptyString)) by done.
    cbn [negb]. by rewrite insert_primitive. }
  eexists. split; [exact Hset|]. repeat split.
Qed.



Section Found.
Context {V : Type}.
Implicit Types (m : TagShim.Shim V) (h : Host) (k : JSValue) (v : V) (t : string).

(** The methods on a key whose tag names an entry. *)
Lemma set_found m h k v t k0 v0 :
  TagShim.getTag_ k (m, h) = (Ok (Some t), (m, h)) →
  t ≠ EmptyString →
  Obj.get (TagShim.entries_ m) t = Some (k0, v0) →
  TagShim.set k v (m, h)
  = (Ok tt, (TagShim.mkShim (Obj.assign (TagShim.entries_ m) t (k0, v))
               (TagShim.tag_ m) (TagShim.size_ m) (TagShim.id_ m), h)).
Proof.
  intros Htag Ht Hget. unfold TagShim.set.
  rewrite (bind_ok _ _ _ _ _ Htag), (bind_ok _ _ _ _ _ (exists_string m h t Ht)).
  unfold Obj.mem, Assoc.mem. unfold Obj.get in Hget. rewrite Hget.
  rewrite bool_decide_true by done. cbn [truthy].
  unfold bind at 1. rewrite entry_at_name. unfold Obj.get. rewrite Hget. reflexivity.
Qed.

Lemma get_found m h k t k0 v0 :
  TagShim.getTag_ k (m, h) = (Ok (Some t), (m, h)) →
  t ≠ EmptyString →
  Obj.get (TagShim.entries_ m) t = Some (k0, v0) →
  TagShim.get k (m, h) = (Ok (Some v0), (m, h)).
Proof.
  intros Htag Ht Hget. unfold TagShim.get.
  rewrite (bind_ok _ _ _ _ _ Htag), (bind_ok _ _ _ _ _ (exists_string m h t Ht)).
  unfold Obj.mem, Assoc.mem. unfold Obj.get in Hget. rewrite Hget.
  rewrite bool_decide_true by done. cbn [truthy].
  unfold bind at 1. rewrite entry_at_name. unfold Obj.get. rewrite Hget. reflexivity.
Qed.

Lemma has_found m h k t k0 v0 :
  TagShim.getTag_ k (m, h) = (Ok (Some t), (m, h)) →
  t ≠ EmptyString →
  Obj.get (TagShim.entries_ m) t = Some (k0, v0) →
  TagShim.has k (m, h) = (Ok (VBool true), (m, h)).
Proof.
  intros Htag Ht Hget. unfold TagShim.has.
  rewrite (bind_ok _ _ _ _ _ Htag), (exists_string m h t Ht).
  unfold Obj.mem, Assoc.mem. unfold Obj.get in Hget. rewrite Hget.
  by rewrite bool_decide_true.
Qed.

(** [insert_] on an extensible object. *)
Lemma insert_object m h (o : positive) v :
  o ∉ inextensible h →
  TagShim.insert_ (VObj o) v (m, h)
  = (Ok tt,
     (TagShim.mkShim
        (Obj.assign (TagShim.entries_ m)
           (TagShim.tag_ m +:+ pretty (TagShim.ToInt32 (TagShim.id_ m))) (VObj o, v))
        (TagShim.tag_ m) (TagShim.size_ m + 1) (TagShim.id_ m + 1),
      set_props (<[(o, TagShim.tag_ m) := TagShim.ToInt32 (TagShim.id_ m)]>) h)).
Proof.
  intros Ho. unfold TagShim.insert_, bind, TagShim.host, TagShim.this, gets.
  cbn -[isExtensible TagShim.ToInt32 Obj.assign]. rewrite isExtensible_plain by done.
  rewrite (bool_decide_true (TObject = TObject)) by done. reflexivity.
Qed.

(** [set] on an extensible object that bears no tag of the map is
    [insert_]. *)
Lemma set_untagged m h (o : positive) v :
  o ∉ inextensible h →
  props h !! (o, TagShim.tag_ m) = None →
  TagShim.set (VObj o) v (m, h) = TagShim.insert_ (VObj o) v (m, h).
Proof.
  intros Ho Hp. unfold TagShim.set.
  rewrite (bind_ok _ _ _ _ _ (getTag_object m h o Ho)), Hp. reflexivity.
Qed.
End Found.

(** X9.  [set] on a primitive whose string starts with the prefix of
    the tags and names no entry throws a TypeError and changes
    nothing. *)
Theorem TagShim_prefixed_primitive_is_refused
    {V : Type} (m : TagShim.Shim V) (h : Host) (k : JSValue) (v : V) :
  typeof k ≠ TObject → k ≠ VUndefined →
  String.prefix TagShim.tagPrefix (join_element h k) = true →
  Obj.mem (TagShim.entries_ m) (join_element h k) = false →
  TagShim.set k v (m, h)
  = (Throw (TypeError
      "Cannot use primitive that stringifies to a value prefixed by MapShim's tag prefix!"),
     (m, h)).
Proof.
  intros Ht Hu Hp Hm. unfold TagShim.set.
  rewrite (bind_ok _ _ _ _ _ (getTag_primitive m h k Ht Hu)).
  assert (join_element h k ≠ EmptyString) as He by (intros E; by rewrite E in Hp).
  rewrite (bind_ok _ _ _ _ _ (exists_string m h _ He)), Hm. cbn [truthy].
  by apply insert_prefixed.
Qed.

Lemma TagShim_prefixed_primitive_is_refused_witness :
  TagShim.set (VStr "__ResizeObserverPolyfill_Map__x") (VNum 7)
    (Example2.empty0, Example.host0)
  = (Throw (TypeError
      "Cannot use primitive that stringifies to a value prefixed by MapShim's tag prefix!"),
     (Example2.empty0, Example.host0)).
Proof.
  apply (TagShim_prefixed_primitive_is_refused Example2.empty0 Example.host0
           (VStr "__ResizeObserverPolyfill_Map__x") (VNum 7));
    first [discriminate | vm_compute; reflexivity].
Defined.

(** X10.  The guard on the prefix does not cover the names in use: on a
    map that holds the entries [data], the string made of the tag of
    the map and the identifier of a key [o] is found as [o] is.  [get]
    and [set] on that string do what they do on [o], and [has] returns
    [true]. *)
Theorem TagShim_entry_name_is_an_alias
    {V : Type} (m : TagShim.Shim V) (h : Host) (data : list (JSValue * V))
    (o : positive) (i : Z) (v : V) :
  Tagged.wf (m, h) data →
  o ∉ inextensible h →
  props h !! (o, TagShim.tag_ m) = Some i →
  let name := VStr (TagShim.tag_ m +:+ pretty i) in
  (∃ v0, TagShim.get (VObj o) (m, h) = (Ok (Some v0), (m, h)))
  ∧ TagShim.get name (m, h) = TagShim.get (VObj o) (m, h)
  ∧ TagShim.has name (m, h) = (Ok (VBool true), (m, h))
  ∧ TagShim.set name v (m, h) = TagShim.set (VObj o) v (m, h).
Proof.
  intros Hwf Ho Hi name.
  pose proof (wf_tag' m h data Hwf) as HT.
  assert (VObj o ∈ data.*1) as Hin by (eapply (Tagged.wf_tagged _ _ Hwf); exact Hi).
  assert (Hsep : separates (Tagged.nameof (TagShim.tag_ m) h) data (VObj o))
    by (apply NoDup_separates; [apply (wf_names' m h data Hwf) | done]).
  destruct (Assoc.get data (VObj o)) as [a|] eqn:E.
  2:{ apply Assoc_get_is_Some in Hin. rewrite E in Hin. by destruct Hin. }
  assert (Hget : Obj.get (TagShim.entries_ m) (TagShim.tag_ m +:+ pretty i)
                 = Some (VObj o, a)).
  { rewrite <- (wf_nameof m h o i Hi), (wf_entries' m h data Hwf).
    unfold Obj.get, Tagged.named.
    rewrite (get_named (Tagged.nameof (TagShim.tag_ m) h)) by done. by rewrite E. }
  assert (Hne : TagShim.tag_ m +:+ pretty i ≠ EmptyString) by by apply name_not_empty.
  assert (Hto : TagShim.getTag_ (VObj o) (m, h)
                = (Ok (Some (TagShim.tag_ m +:+ pretty i)), (m, h))).
  { rewrite getTag_object by done. by rewrite Hi. }
  assert (Htn : TagShim.getTag_ name (m, h)
                = (Ok (Some (TagShim.tag_ m +:+ pretty i)), (m, h))).
  { by rewrite getTag_primitive. }
  rewrite (get_found m h (VObj o) _ _ _ Hto Hne Hget).
  rewrite (get_found m h name _ _ _ Htn Hne Hget).
  rewrite (has_found m h name _ _ _ Htn Hne Hget).
  rewrite (set_found m h (VObj o) v _ _ _ Hto Hne Hget).
  rewrite (set_found m h name v _ _ _ Htn Hne Hget).
  split; [by eexists|]. done.
Qed.

Lemma TagShim_entry_name_is_an_alias_witness :
  (∃ v0, TagShim.get (VObj 1) Example2.one0 = (Ok (Some v0), Example2.one0))
  ∧ TagShim.get (VStr "__ResizeObserverPolyfill_Map__00") Example2.one0
    = TagShim.get (VObj 1) Example2.one0
  ∧ TagShim.has (VStr "__ResizeObserverPolyfill_Map__00") Example2.one0
    = (Ok (VBool true), Example2.one0)
  ∧ TagShim.set (VStr "__ResizeObserverPolyfill_Map__00") (VNum 9) Example2.one0
    = TagShim.set (VObj 1) (VNum 9) Example2.one0.
Proof.
  apply (TagShim_entry_name_is_an_alias Example2.one0.1 Example2.one0.2
           [(VObj 1, VNum 7)] 1 0 (VNum 9)).
  - exact wf_one0.
  - apply not_inextensible_one0.
  - vm_compute. reflexivity.
Defined.

(** X11.  [null] and [undefined] are no keys.  [set] on either throws
    a TypeError and changes nothing.  [get], [has] and [delete] on
    [undefined] throw a TypeError as well; on [null] they return
    [undefined], [undefined] and [false]. *)
Theorem TagShim_null_and_undefined_are_no_keys
    {V : Type} (m : TagShim.Shim V) (h : Host) (v : V) :
  (∃ e, TagShim.set VNull v (m, h) = (Throw (TypeError e), (m, h)))
  ∧ (∃ e, TagShim.set VUndefined v (m, h) = (Throw (TypeError e), (m, h)))
  ∧ (∃ e, TagShim.get VUndefined (m, h) = (Throw (TypeError e), (m, h)))
  ∧ (∃ e, TagShim.has VUndefined (m, h) = (Throw (TypeError e), (m, h)))
  ∧ (∃ e, TagShim.delete VUndefined (m, h) = (Throw (TypeError e), (m, h)))
  ∧ TagShim.get VNull (m, h) = (Ok None, (m, h))
  ∧ TagShim.has VNull (m, h) = (Ok VUndefined, (m, h))
  ∧ TagShim.delete VNull (m, h) = (Ok false, (m, h)).
Proof. repeat split; by eexists. Qed.

(** X12.  A key that is made inextensible after its insertion is lost
    to the lookups and stays in the map: [get] and [has] return
    [undefined], [delete] returns [false] and removes nothing, [set]
    throws, the size still counts the entry and [forEach] still visits
    it. *)
Theorem TagShim_key_made_inextensible_is_lost
    {V : Type} (m : TagShim.Shim V) (h : Host) (data : list (JSValue * V))
    (o : positive) (v0 v : V) :
  Tagged.wf (m, h) data →
  o ∉ inextensible h →
  TagShim.get (VObj o) (m, h) = (Ok (Some v0), (m, h)) →
  let h' := preventExtensions o h in
  TagShim.get (VObj o) (m, h') = (Ok None, (m, h'))
  ∧ TagShim.has (VObj o) (m, h') = (Ok VUndefined, (m, h'))
  ∧ TagShim.delete (VObj o) (m, h') = (Ok false, (m, h'))
  ∧ TagShim.set (VObj o) v (m, h')
    = (Throw (TypeError "Cannot use inextensible object as keys with MapShim!"), (m, h'))
  ∧ 0 < TagShim.size m
  ∧ ∃ visited, TagShim.forEach collect m [] = (Ok tt, visited) ∧ (v0, VObj o) ∈ visited.
Proof.
  intros Hwf Ho Hget h'.
  assert (o ∈ inextensible h') as Hin by (cbn; set_solver).
  rewrite (wf_get m h data Hwf o Ho) in Hget.
  assert (Assoc.get data (VObj o) = Some v0) as Hv by congruence.
  assert ((VObj o, v0) ∈ data) as Hel.
  { clear -Hv. induction data as [|[k a] data IH]; [done|]. cbn in Hv.
    case_bool_decide as Hk; [|right; by apply IH].
    injection Hv as ->. rewrite Hk. left. }
  split; [by apply get_frozen|]. split; [by apply has_frozen|].
  split; [|split; [by apply set_frozen|split]].
  - unfold TagShim.delete. by rewrite (bind_ok _ _ _ _ _ (getTag_frozen m h' o Hin)).
  - unfold TagShim.size. rewrite (wf_size' m h data Hwf).
    destruct data; [by apply elem_of_nil in Hel | cbn; lia].
  - eexists. split; [apply (wf_forEach m h data [] Hwf)|].
    rewrite app_nil_l. apply list_elem_of_fmap. by exists (VObj o, v0).
Qed.

Lemma TagShim_key_made_inextensible_is_lost_witness :
  let h' := preventExtensions 1 Example2.one0.2 in
  TagShim.get (VObj 1) (Example2.one0.1, h') = (Ok None, (Example2.one0.1, h'))
  ∧ TagShim.has (VObj 1) (Example2.one0.1, h') = (Ok VUndefined, (Example2.one0.1, h'))
  ∧ TagShim.delete (VObj 1) (Example2.one0.1, h') = (Ok false, (Example2.one0.1, h'))
  ∧ TagShim.set (VObj 1) (VNum 9) (Example2.one0.1, h')
    = (Throw (TypeError "Cannot use inextensible object as keys with MapShim!"),
       (Example2.one0.1, h'))
  ∧ 0 < TagShim.size Example2.one0.1
  ∧ ∃ visited, TagShim.forEach collect Example2.one0.1 [] = (Ok tt, visited)
      ∧ (VNum 7, VObj 1) ∈ visited.
Proof.
  apply (TagShim_key_made_inextensible_is_lost Example2.one0.1 Example2.one0.2
           [(VObj 1, VNum 7)] 1 (VNum 7) (VNum 9)).
  - exact wf_one0.
  - apply not_inextensible_one0.
  - vm_compute. reflexivity.
Defined.

(** X13.  The identifier of a new key is the counter as a 32-bit
    integer, so a counter that has wrapped gives an identifier again.
    When the object [o1] bears the identifier that comes next, [set]
    on an untagged object [o2] takes the entry of [o1]: afterwards
    [get(o1)] is the value given for [o2]. *)
Theorem TagShim_identifier_is_reused_after_wrapping
    {V : Type} (m : TagShim.Shim V) (h : Host) (o1 o2 : positive) (v : V) :
  String.prefix TagShim.tagPrefix (TagShim.tag_ m) = true →
  o1 ∉ inextensible h → o2 ∉ inextensible h →
  o1 ≠ o2 →
  props h !! (o1, TagShim.tag_ m) = Some (TagShim.ToInt32 (TagShim.id_ m)) →
  props h !! (o2, TagShim.tag_ m) = None →
  ∃ s',
    TagShim.set (VObj o2) v (m, h) = (Ok tt, s')
    ∧ TagShim.get (VObj o1) s' = (Ok (Some v), s')
    ∧ TagShim.get (VObj o2) s' = (Ok (Some v), s').
Proof.
  intros HT Ho1 Ho2 Hne H1 H2.
  rewrite set_untagged, insert_object by done. eexists. split; [reflexivity|].
  set (i := TagShim.ToInt32 (TagShim.id_ m)).
  set (h' := set_props _ h).
  set (m' := TagShim.mkShim _ _ _ _).
  assert (Hget : Obj.get (TagShim.entries_ m') (TagShim.tag_ m' +:+ pretty i)
                 = Some (VObj o2, v)).
  { unfold Obj.get. cbn. unfold Obj.assign. by rewrite Assoc_get_assign. }
  assert (Hnm : TagShim.tag_ m' +:+ pretty i ≠ EmptyString) by by apply name_not_empty.
  split.
  - apply (get_found m' h' (VObj o1) (TagShim.tag_ m' +:+ pretty i) (VObj o2) v); [|exact Hnm|exact Hget].
    rewrite getTag_object by done. subst h'. cbn [props set_props TagShim.tag_ m'].
    rewrite lookup_insert_ne by congruence. by rewrite H1.
  - apply (get_found m' h' (VObj o2) (TagShim.tag_ m' +:+ pretty i) (VObj o2) v); [|exact Hnm|exact Hget].
    rewrite getTag_object by done. subst h'. cbn [props set_props TagShim.tag_ m'].
    by rewrite lookup_insert_eq.
Qed.

Lemma TagShim_identifier_is_reused_after_wrapping_witness :
  ∃ s',
    TagShim.set (VObj 2) (VNum 9) Example2.wrapped0 = (Ok tt, s')
    ∧ TagShim.get (VObj 1) s' = (Ok (Some (VNum 9)), s')
    ∧ TagShim.get (VObj 2) s' = (Ok (Some (VNum 9)), s').
Proof.
  apply (TagShim_identifier_is_reused_after_wrapping
           Example2.wrapped0.1 Example2.wrapped0.2 1 2 (VNum 9));
    first [ apply not_inextensible_one0 | discriminate | vm_compute; reflexivity ].
Defined.

(** ** The observer between a gathering and a broadcast *)

Section Staged.
Import ResizeObserverSPI Observe.
Context {M : Type} (Map : MapImpl ObsRef M) (env : Env).
Implicit Types (w : World M).

(** A call on [observations_] leaves the other fields alone. *)
Lemma observations_frame {A : Type} (m : JS (M * Host) A) w :
  activeObservations_ (observations m w).2 = activeObservations_ w
  ∧ heap (observations m w).2 = heap w
  ∧ layout (observations m w).2 = layout w.
Proof. unfold observations, zoom. by destruct (m _) as [r [m' h']]. Qed.

Lemma unobserve_frame args w w' :
  (unobserve Map env args w).2 = w' →
  activeObservations_ w' = activeObservations_ w
  ∧ heap w' = heap w
  ∧ layout w' = layout w.
Proof.
  unfold unobserve. unfold bind at 1.
  pose proof (validate_state env args (parameter1 args) w) as Hv.
  destruct (validateMethodCall env args (parameter1 args) w) as [[[]|e] w1];
    cbn in Hv; subst w1; [|by intros <-|by intros <-].
  cbn [negb]. unfold bind at 1.
  pose proof (observations_frame (Map_has (parameter1 args)) w) as (Ha & Hh & Hl).
  destruct (observations (Map_has (parameter1 args)) w) as [[[]|e] w2];
    cbn [snd] in Ha, Hh, Hl; [|by intros <-|by intros <-].
  cbn [negb]. unfold bind at 1.
  pose proof (observations_frame (Map_delete (parameter1 args)) w2) as (Ha' & Hh' & Hl').
  destruct (observations (Map_delete (parameter1 args)) w2) as [[b|e] w3];
    cbn [snd] in Ha', Hh', Hl'; [|intros <-; cbn [snd]; by rewrite Ha', Hh', Hl'].
  unfold bind at 1. cbn [gets]. destruct (negb _); cbn; intros <-; cbn;
    by rewrite ?Ha', ?Hh', ?Hl'.
Qed.
End Staged.

(** X14.  [unobserve] takes nothing back from what [gatherActive]
    staged: it leaves [activeObservations_] as it is, whatever map the
    instance is built on, so the [broadcastActive] that follows still
    passes the callback the entries of all the staged observations,
    that of the target given to [unobserve] included. *)
Theorem unobserve_keeps_what_is_staged
    {M : Type} (Map : MapImpl ObsRef M) (env : Env) (args : list JSValue)
    (w : ResizeObserverSPI.World M) (callback : ResizeObserverSPI.Callback M) :
  let w' := (ResizeObserverSPI.unobserve Map env args w).2 in
  ResizeObserverSPI.activeObservations_ w' = ResizeObserverSPI.activeObservations_ w
  ∧ Observe.snapshot w' = Observe.snapshot w
  ∧ (ResizeObserverSPI.activeObservations_ w ≠ [] →
     ResizeObserverSPI.broadcastActive callback w'
     = bind (callback (Observe.snapshot w)) (λ _, ResizeObserverSPI.clearActive)
            (Observe.recorded w')).
Proof.
  intros w'. destruct (unobserve_frame Map env args w w' eq_refl) as (Ha & Hh & Hl).
  assert (Observe.snapshot w' = Observe.snapshot w) as Hs.
  { unfold Observe.snapshot, Observe.entry_of. by rewrite Ha, Hh, Hl. }
  split; [done|]. split; [done|]. intros Hne.
  rewrite broadcastActive_calls by by rewrite Ha. by rewrite Hs.
Qed.

Lemma unobserve_keeps_what_is_staged_witness :
  let w' := (ResizeObserverSPI.unobserve (Es6Collections.impl true) Example.env_native
               [VObj 1] Example.world_active).2 in
  Observe.observed w' = []
  ∧ ResizeObserverSPI.activeObservations_ w' = [Ref O]
  ∧ Observe.snapshot w' = [mkEntry (VObj 1) Example.box0]
  ∧ ResizeObserverSPI.broadcastActive Example.failing w'
    = bind (Example.failing [mkEntry (VObj 1) Example.box0])
           (λ _, ResizeObserverSPI.clearActive) (Observe.recorded w').
Proof.
  destruct (unobserve_keeps_what_is_staged (Es6Collections.impl true) Example.env_native
              [VObj 1] Example.world_active Example.failing) as (Ha & Hs & Hb).
  split; [vm_compute; reflexivity|]. split; [exact Ha|]. split; [exact Hs|].
  apply Hb. discriminate.
Defined.

(** X15.  After [disconnect()] the instance is silent: [hasActive()]
    is false, [gatherActive()] finds nothing and [broadcastActive()]
    returns without a call of the callback, the state staying as
    [disconnect()] left it. *)
Theorem disconnect_silences_the_instance
    (env : Env) (w : ResizeObserverSPI.World (Es6Collections.MapShim ObsRef))
    (callback : ResizeObserverSPI.Callback (Es6Collections.MapShim ObsRef)) :
  let spi := Es6Collections.impl (Map_defined env) in
  let w' := (ResizeObserverSPI.disconnect spi w).2 in
  ResizeObserverSPI.hasActive w' = (Ok false, w')
  ∧ ResizeObserverSPI.gatherActive spi w' = (Ok tt, w')
  ∧ ResizeObserverSPI.broadcastActive callback w' = (Ok tt, w')
  ∧ bind (ResizeObserverSPI.gatherActive spi)
         (λ _, ResizeObserverSPI.broadcastActive callback) w' = (Ok tt, w').
Proof.
  intros spi w'. subst spi w'. rewrite disconnect_result. cbn [snd].
  set (w' := ResizeObserverSPI.mkWorld _ _ _ _ _ _ _ _).
  assert (ResizeObserverSPI.gatherActive (Es6Collections.impl (Map_defined env)) w'
          = (Ok tt, w')) as Hg.
  { rewrite gatherActive_filters. subst w'. cbn.
    by destruct (ResizeObserverSPI.observations_ w). }
  assert (ResizeObserverSPI.broadcastActive callback w' = (Ok tt, w')) as Hb
    by by apply broadcastActive_idle.
  split; [done|]. split; [exact Hg|]. split; [exact Hb|].
  unfold bind. by rewrite Hg.
Qed.

(** ** [getWindowOf] in the validation *)



(** ** shims/global.js *)

(** X17.  What the module of the global object returns is truthy and
    is one of [this], [globalThis], [self], [window] and the value of
    [__global__]; what it throws is the error of the fallback or what
    the evaluation of [__global__] threw. *)
Theorem global_is_truthy_or_throws
    (r : Global.Realm) (s : Global.St) :
  match (Global.global r s).1 with
  | Ok g =>
      truthy g = true
      ∧ (g = Global.this_ r ∨ g = Global.globalThis_ r ∨ g = Global.self_ r
         ∨ g = Global.window_ r ∨ Global.__global__ r = Ok g)
  | Throw e =>
      e = Error "Unable to resolve global `this`" ∨ Global.__global__ r = Throw e
  end.
Proof.
  unfold Global.global, Global.naiveFallback, Global.try_catch, Global.try_finally,
    Global.define, Global.is_object, bind, ret, throw, modify.
  destruct (truthy (Global.this_ r)) eqn:Ht; [cbn; auto|].
  destruct (bool_decide (typeof (Global.globalThis_ r) = TObject)); cbn [andb].
  1: destruct (truthy (Global.globalThis_ r)) eqn:Hg; [cbn; auto|].
  all: destruct (Global.define_fails r); cbn [negb fst snd].
  all: destruct (bool_decide (typeof (Global.self_ r) = TObject)); cbn [andb].
  all: destruct (truthy (Global.self_ r)) eqn:Hs; cbn [fst snd].
  all: destruct (bool_decide (typeof (Global.window_ r) = TObject)); cbn [andb].
  all: destruct (truthy (Global.window_ r)) eqn:Hw; cbn [fst snd].
  all: destruct (Global.__global__ r) as [g|e] eqn:Hgl; cbn [negb fst snd].
  all: try destruct (truthy g) eqn:Hg'; cbn [negb fst snd]; auto 10.
Qed.

(** X18.  The module leaves no [__global__] on [Object.prototype]: if
    there was none when it was loaded, there is none when it has
    returned or thrown. *)
Theorem global_leaves_no_property (r : Global.Realm) :
  (Global.global r false).2 = false.
Proof.
  unfold Global.global, Global.naiveFallback, Global.try_catch, Global.try_finally,
    Global.define, Global.is_object, bind, ret, throw, modify.
  destruct (truthy (Global.this_ r)); [done|].
  destruct (bool_decide (typeof (Global.globalThis_ r) = TObject) && truthy (Global.globalThis_ r));
    [done|].
  destruct (Global.define_fails r); cbn [negb fst snd].
  all: destruct (bool_decide (typeof (Global.self_ r) = TObject) && truthy (Global.self_ r)).
  all: destruct (bool_decide (typeof (Global.window_ r) = TObject) && truthy (Global.window_ r)).
  all: destruct (Global.__global__ r) as [g|e]; cbn [negb fst snd]; try done.
  all: destruct (truthy g); done.
Qed.

(** ** The tags *)

Lemma hex_digit_lower (v : Z) :
  0 ≤ v < 16 → ∃ c, TagShim.hex_digit v = String c EmptyString ∧ lower_hex c = true.
Proof.
  intros Hv.
  assert (v = 0 ∨ v = 1 ∨ v = 2 ∨ v = 3 ∨ v = 4 ∨ v = 5 ∨ v = 6 ∨ v = 7 ∨ v = 8
          ∨ v = 9 ∨ v = 10 ∨ v = 11 ∨ v = 12 ∨ v = 13 ∨ v = 14 ∨ v = 15) as H by lia.
  repeat (destruct H as [->|H]; [eexists; split; [reflexivity|vm_compute; reflexivity]|]).
  subst v. eexists; split; [reflexivity|vm_compute; reflexivity].
Qed.

Lemma hex_digit_variant (r : Z) :
  ∃ c, TagShim.hex_digit (Z.lor (Z.land r 3) 8) = String c EmptyString
       ∧ bool_decide (c ∈ String.list_ascii_of_string "89ab") = true.
Proof.
  change 3 with (Z.ones 2). rewrite Z.land_ones by lia.
  pose proof (Z.mod_pos_bound r (2 ^ 2) ltac:(lia)) as Hb.
  assert (r `mod` 2 ^ 2 = 0 ∨ r `mod` 2 ^ 2 = 1 ∨ r `mod` 2 ^ 2 = 2 ∨ r `mod` 2 ^ 2 = 3)
    as H by lia.
  repeat (destruct H as [->|H]; [eexists; split; [reflexivity|vm_compute; reflexivity]|]).
  rewrite H. eexists; split; [reflexivity|vm_compute; reflexivity].
Qed.

Lemma replace_xy_fills (pattern : string) (h : Host) :
  ∃ u, TagShim.replace_xy pattern h
       = (Ok u, set_draws (replaced pattern + draws h) h)
       ∧ fills pattern u = true.
Proof.
  revert h. induction pattern as [|p pattern IH]; intros h.
  - exists EmptyString. split; [by destruct h|done].
  - cbn [TagShim.replace_xy replaced fills]. unfold bind at 1. unfold TagShim.replace_char.
    destruct (bool_decide (p = "x"%char)) eqn:Ex; cbn [orb].
    + unfold bind at 1. unfold TagShim.draw at 1. cbn beta iota. unfold ret at 1.
      destruct (hex_digit_lower (random h (draws h) `mod` 16)) as (c & Hc & Hl);
        [by apply Z.mod_pos_bound|].
      destruct (IH (set_draws (S (draws h)) h)) as (u & Hu & Hf).
      exists (String c u). unfold bind. rewrite Hu, Hc. cbn. rewrite Hl, Hf.
      split; [|done]. unfold ret. f_equal. destruct h. unfold set_draws. cbn.
      f_equal. lia.
    + destruct (bool_decide (p = "y"%char)) eqn:Ey.
      * unfold bind at 1. unfold TagShim.draw at 1. cbn beta iota. unfold ret at 1.
        destruct (hex_digit_variant (random h (draws h) `mod` 16)) as (c & Hc & Hl).
        destruct (IH (set_draws (S (draws h)) h)) as (u & Hu & Hf).
        exists (String c u). unfold bind. rewrite Hu, Hc. cbn. cbn in Hl.
        rewrite Hl, Hf.
        split; [|done]. unfold ret. f_equal. destruct h. unfold set_draws. cbn.
        f_equal. lia.
      * destruct (IH h) as (u & Hu & Hf).
        exists (String p u). unfold ret at 1. unfold bind. rewrite Hu. cbn.
        rewrite Hf, bool_decide_true by done. split; [|done]. reflexivity.
Qed.

Lemma fills_length (pattern u : string) :
  fills pattern u = true → String.length u = String.length pattern.
Proof.
  revert u. induction pattern as [|p pattern IH]; intros [|c u] H; try done.
  cbn [fills] in H. apply andb_prop in H as [_ H]. cbn. f_equal. by apply IH.
Qed.

Lemma fills_get (pattern u : string) (i : nat) (p : Ascii.ascii) :
  fills pattern u = true →
  String.get i pattern = Some p → p ≠ "x"%char → p ≠ "y"%char →
  String.get i u = Some p.
Proof.
  revert u i. induction pattern as [|q pattern IH]; intros [|c u] i H Hp Hx Hy; try done.
  cbn [fills] in H. apply andb_prop in H as [Hc H].
  destruct i as [|i]; cbn in Hp |- *; [|by apply IH].
  injection Hp as ->. rewrite !bool_decide_false in Hc by done.
  apply bool_decide_eq_true in Hc. by rewrite Hc.
Qed.

(** X19.  A tag is the prefix followed by 36 characters in the form of
    a version 4 UUID: lower-case hexadecimal digits in groups of 8, 4,
    4, 4 and 12 between hyphens, the third group starting with 4 and
    the fourth with one of 8, 9, a and b.  Making one takes 31 random
    numbers, and never throws. *)
Theorem generateTag_fills_the_template (h : Host) :
  ∃ u,
    TagShim.generateTag h
    = (Ok (TagShim.tagPrefix +:+ u), set_draws (31 + draws h) h)
    ∧ fills TagShim.template u = true
    ∧ String.length u = 36%nat
    ∧ String.get 14 u = Some "4"%char.
Proof.
  destruct (replace_xy_fills TagShim.template h) as (u & Hu & Hf).
  exists u. unfold TagShim.generateTag, bind. rewrite Hu.
  split; [reflexivity|]. split; [exact Hf|]. split.
  - by rewrite (fills_length _ _ Hf).
  - by apply (fills_get _ _ _ _ Hf).
Qed.

(** ** The array-backed [Shim] as a log of the calls of [set] *)

Section ArrayLog.
Context {V : Type} `{!Stringify V}.
Implicit Types (m : ArrayShim.Shim V) (h : Host) (pairs : list (JSValue * V)).

End ArrayLog.


(** ** The observer over the tag-backed [Shim] *)

Section SPIOnTagShim.
Import ResizeObserverSPI Observe.
Context (env : Env).
Implicit Types (w : World (TagShim.Shim ObsRef)) (o : positive).
Implicit Types (data : list (JSValue * ObsRef)).

Lemma set_map_same w : set_map (observations_ w, host_ w) w = w.
Proof. by destruct w. Qed.

Lemma tagged_has w data o :
  Tagged.wf (observations_ w, host_ w) data →
  o ∉ inextensible (host_ w) →
  observations (Map_has (MapImpl := TagShim_impl) (VObj o)) w
  = (Ok (Assoc.mem data (VObj o)), w).
Proof.
  intros Hwf Ho. unfold observations, zoom. cbn [Map_has TagShim_impl].
  unfold bind. rewrite (wf_has _ _ _ Hwf o Ho). unfold ret.
  rewrite set_map_same. by destruct (Assoc.mem data (VObj o)).
Qed.

Lemma tagged_set w data o (r : ObsRef) :
  Tagged.wf (observations_ w, host_ w) data →
  o ∉ inextensible (host_ w) →
  TagShim.id_ (observations_ w) < 2 ^ 31 - 1 →
  ∃ m' h',
    observations (Map_set (MapImpl := TagShim_impl) (VObj o) r) w
    = (Ok tt, set_map (m', h') w)
    ∧ Tagged.wf (m', h') (Assoc.assign data (VObj o) r)
    ∧ inextensible h' = inextensible (host_ w).
Proof.
  intros Hwf Ho Hid.
  destruct (wf_set _ _ _ o r Hwf Ho Hid) as (m' & h' & Hset & Hwf' & Hin & _).
  exists m', h'. unfold observations, zoom. cbn [Map_set TagShim_impl].
  by rewrite Hset.
Qed.


(** [observe] of an extensible element on a map that holds [data]. *)
Lemma tagged_observe w data o :
  hasElementInterface env = true → is_Element env (VObj o) = true →
  Tagged.wf (observations_ w, host_ w) data →
  o ∉ inextensible (host_ w) →
  TagShim.id_ (observations_ w) < 2 ^ 31 - 1 →
  ∃ w1,
    observe TagShim_impl env [VObj o] w = (Ok tt, w1)
    ∧ Tagged.wf (observations_ w1, host_ w1)
        (if Assoc.mem data (VObj o) then data
         else data ++ [(VObj o, Ref (allocated w))])
    ∧ inextensible (host_ w1) = inextensible (host_ w)
    ∧ TagShim.id_ (observations_ w1) ≤ TagShim.id_ (observations_ w) + 1
    ∧ activeObservations_ w1 = activeObservations_ w
    ∧ (Assoc.mem data (VObj o) = true → w1 = w)
    ∧ (Assoc.mem data (VObj o) = false →
       ResizeObserverController.registered (self w) (controller_ w1) = true).
Proof.
  intros He Ha Hwf Ho Hid. unfold observe.
  change (parameter1 [VObj o]) with (VObj o). cbn zeta.
  rewrite (bind_ok _ _ _ _ _ (validate_Element env (VObj o) [] (VObj o) w He Ha)).
  cbn [negb]. rewrite (bind_ok _ _ _ _ _ (tagged_has w data o Hwf Ho)).
  destruct (Assoc.mem data (VObj o)) eqn:Hm.
  - exists w. split; [done|]. split; [done|]. split; [done|]. split; [lia|].
    split; [done|]. split; done.
  - unfold bind at 1. cbn [new_ResizeObservation].
    set (w0 := set_heap _ _ w).
    destruct (wf_set _ _ _ o (Ref (allocated w)) Hwf Ho Hid)
      as (m' & h' & Hset & Hwf' & Hin & _ & Hid').
    assert (observations (Map_set (MapImpl := TagShim_impl) (VObj o) (Ref (allocated w))) w0
            = (Ok tt, set_map (m', h') w0)) as Hs.
    { unfold observations, zoom. cbn [Map_set TagShim_impl].
      change (observations_ w0, host_ w0) with (observations_ w, host_ w).
      by rewrite Hset. }
    rewrite (bind_ok _ _ _ _ _ Hs). eexists. split; [reflexivity|].
    cbn. rewrite Assoc_assign_fresh in Hwf' by done.
    split; [exact Hwf'|]. split; [exact Hin|]. split; [exact Hid'|].
    split; [done|]. split; [done|]. intros _. apply addObserver_registers.
Qed.

End SPIOnTagShim.

(** X21.  On the tag-backed map, [observe] of an extensible element
    registers it once: a second [observe] of the same target changes
    nothing, and the map has one entry more than before if the target
    was not observed and as many if it was. *)
Theorem observe_is_idempotent_on_the_tag_backed_map
    (env : Env) (w : ResizeObserverSPI.World (TagShim.Shim ObsRef))
    (data : list (JSValue * ObsRef)) (o : positive) :
  ResizeObserverSPI.hasElementInterface env = true →
  Observe.is_Element env (VObj o) = true →
  Tagged.wf (ResizeObserverSPI.observations_ w, ResizeObserverSPI.host_ w) data →
  o ∉ inextensible (ResizeObserverSPI.host_ w) →
  TagShim.id_ (ResizeObserverSPI.observations_ w) < 2 ^ 31 - 1 →
  ∃ w1,
    ResizeObserverSPI.observe TagShim_impl env [VObj o] w = (Ok tt, w1)
    ∧ ResizeObserverSPI.observe TagShim_impl env [VObj o] w1 = (Ok tt, w1)
    ∧ TagShim.size (ResizeObserverSPI.observations_ w1)
      = TagShim.size (ResizeObserverSPI.observations_ w)
        + (if Assoc.mem data (VObj o) then 0 else 1)
    ∧ TagShim.has (VObj o)
        (ResizeObserverSPI.observations_ w1, ResizeObserverSPI.host_ w1)
      = (Ok (VBool true),
         (ResizeObserverSPI.observations_ w1, ResizeObserverSPI.host_ w1)).
Proof.
  intros He Ha Hwf Ho Hid.
  destruct (tagged_observe env w data o He Ha Hwf Ho Hid)
    as (w1 & Hobs & Hwf1 & Hin & Hid1 & _ & Hsame & _).
  exists w1. split; [exact Hobs|].
  assert (o ∉ inextensible (ResizeObserverSPI.host_ w1)) as Ho1 by by rewrite Hin.
  assert (Assoc.mem (if Assoc.mem data (VObj o) then data
                     else data ++ [(VObj o, Ref (ResizeObserverSPI.allocated w))])
            (VObj o) = true) as Hm1.
  { destruct (Assoc.mem data (VObj o)) eqn:Hm; [done|].
    rewrite <- (Assoc_assign_fresh data (VObj o)) by done. apply Assoc_mem_assign. }
  split; [|split].
  - destruct (Assoc.mem data (VObj o)) eqn:Hm.
    + rewrite (Hsame eq_refl) in *. exact Hobs.
    + unfold ResizeObserverSPI.observe.
      change (ResizeObserverSPI.parameter1 [VObj o]) with (VObj o). cbn zeta.
      rewrite (bind_ok _ _ _ _ _ (validate_Element env (VObj o) [] (VObj o) w1 He Ha)).
      cbn [negb]. rewrite (bind_ok _ _ _ _ _ (tagged_has w1 _ o Hwf1 Ho1)).
      by rewrite Hm1.
  - unfold TagShim.size. rewrite (wf_size' _ _ _ Hwf1), (wf_size' _ _ _ Hwf).
    destruct (Assoc.mem data (VObj o)); [lia|]. rewrite length_app. cbn. lia.
  - rewrite (wf_has _ _ _ Hwf1 o Ho1). by rewrite Hm1.
Qed.

Lemma wf_tagged_new :
  Tagged.wf (ResizeObserverSPI.observations_ Example2.tagged_new,
             ResizeObserverSPI.host_ Example2.tagged_new) [].
Proof. apply wf_empty; [vm_compute; reflexivity|]. intros o. vm_compute. reflexivity. Defined.

Lemma observe_is_idempotent_on_the_tag_backed_map_witness :
  ∃ w1,
    ResizeObserverSPI.observe TagShim_impl Example.env_shim [VObj 1] Example2.tagged_new
    = (Ok tt, w1)
    ∧ ResizeObserverSPI.observe TagShim_impl Example.env_shim [VObj 1] w1 = (Ok tt, w1)
    ∧ TagShim.size (ResizeObserverSPI.observations_ w1) = 0 + 1
    ∧ TagShim.has (VObj 1)
        (ResizeObserverSPI.observations_ w1, ResizeObserverSPI.host_ w1)
      = (Ok (VBool true),
         (ResizeObserverSPI.observations_ w1, ResizeObserverSPI.host_ w1)).
Proof.
  apply (observe_is_idempotent_on_the_tag_backed_map Example.env_shim
           Example2.tagged_new [] 1).
  - vm_compute. reflexivity.
  - vm_compute. reflexivity.
  - exact wf_tagged_new.
  - apply not_inextensible0.
  - vm_compute. reflexivity.
Defined.



(** ** Gathering over the tag-backed [Shim] *)

Section GatherOnTagShim.
Import ResizeObserverSPI Observe.
Implicit Types (w : World (TagShim.Shim ObsRef)) (data : list (JSValue * ObsRef)).


End GatherOnTagShim.



(** ** Two tag-backed maps on the same objects *)

Section TwoMaps.
Context {V W : Type}.
Implicit Types (mA : TagShim.Shim V) (mB : TagShim.Shim W) (h : Host).
Implicit Types (k : JSValue) (v : V) (dataB : list (JSValue * W)).

(** What a map holds depends on the properties under its own tag
    only. *)
Lemma wf_props_ext mB h h' dataB :
  (∀ o, props h' !! (o, TagShim.tag_ mB) = props h !! (o, TagShim.tag_ mB)) →
  Tagged.wf (mB, h) dataB → Tagged.wf (mB, h') dataB.
Proof.
  intros Hp Hwf.
  assert (∀ k, Tagged.nameof (TagShim.tag_ mB) h' k = Tagged.nameof (TagShim.tag_ mB) h k)
    as Hn by (intros [| | | | |o]; try done; cbn; by rewrite Hp).
  constructor; cbn [fst snd].
  - apply (wf_tag' _ _ _ Hwf).
  - rewrite (wf_entries' _ _ _ Hwf). unfold Tagged.named.
    apply list_fmap_ext. intros _ [k a] _. cbn. by rewrite Hn.
  - intros k Hk. destruct (Tagged.wf_keys _ _ Hwf k Hk) as (o & i & -> & Hi & Hlt).
    exists o, i. cbn in Hi, Hlt. by rewrite Hp.
  - intros o i Hi. rewrite Hp in Hi. by apply (Tagged.wf_tagged _ _ Hwf o i).
  - rewrite (list_fmap_ext _ (Tagged.nameof (TagShim.tag_ mB) h) dataB.*1) by done.
    apply (wf_names' _ _ _ Hwf).
  - apply (wf_size' _ _ _ Hwf).
  - apply (wf_id' _ _ _ Hwf).
Qed.

(** [getTag_] and [exists_] change nothing. *)
Lemma getTag_state mA h k : (TagShim.getTag_ k (mA, h)).2 = (mA, h).
Proof.
  unfold TagShim.getTag_, TagShim.host, TagShim.this, toString, bind, gets, ret, throw.
  destruct k; cbn; try done. by destruct (_ && _).
Qed.

Lemma exists_state mA h (tag : option string) :
  ∃ found, TagShim.exists_ tag (mA, h) = (Ok found, (mA, h)).
Proof.
  unfold TagShim.exists_, TagShim.this, bind, gets, ret. cbn.
  destruct tag as [t|]; [|by eexists]. destruct (bool_decide (t = EmptyString)); by eexists.
Qed.

(** [insert_] writes no property but the tag of its own map, and
    freezes nothing. *)
Lemma insert_frame mA h k v :
  inextensible (TagShim.insert_ k v (mA, h)).2.2 = inextensible h
  ∧ ∀ o (T : string), T ≠ TagShim.tag_ mA →
      props (TagShim.insert_ k v (mA, h)).2.2 !! (o, T) = props h !! (o, T).
Proof.
  destruct k as [| |b|n|s|o0].
  - done.
  - done.
  - unfold TagShim.insert_, TagShim.host, TagShim.this, bind, gets. cbn.
    by destruct (String.prefix _ _).
  - unfold TagShim.insert_, TagShim.host, TagShim.this, bind, gets. cbn.
    by destruct (String.prefix _ _).
  - unfold TagShim.insert_, TagShim.host, TagShim.this, bind, gets. cbn.
    by destruct (String.prefix _ _).
  - destruct (decide (o0 ∈ inextensible h)) as [Hin|Hin].
    + by rewrite insert_frozen.
    + rewrite insert_object by done. cbn. split; [done|]. intros o T HT.
      rewrite lookup_insert_ne; [done|congruence].
Qed.

(** [set], [delete] and [clear] write no property but the tag of their
    own map. *)
Lemma set_frame mA h k v (s' : TagShim.St V) :
  (TagShim.set k v (mA, h)).2 = s' →
  inextensible s'.2 = inextensible h
  ∧ ∀ o (T : string), T ≠ TagShim.tag_ mA → props s'.2 !! (o, T) = props h !! (o, T).
Proof.
  unfold TagShim.set. unfold bind at 1.
  pose proof (getTag_state mA h k) as Hg.
  destruct (TagShim.getTag_ k (mA, h)) as [[tag|e] s1]; cbn in Hg; subst s1;
    [|by intros <-].
  unfold bind at 1. destruct (exists_state mA h tag) as [found ->].
  destruct (truthy found); [|intros <-; apply insert_frame].
  unfold bind at 1. unfold TagShim.entry_at, TagShim.this, bind, gets. cbn.
  destruct (tag ≫= Obj.get (TagShim.entries_ mA)); by intros <-.
Qed.

Lemma delete_frame mA h k (s' : TagShim.St V) :
  (TagShim.delete k (mA, h)).2 = s' →
  inextensible s'.2 = inextensible h
  ∧ ∀ o (T : string), T ≠ TagShim.tag_ mA → props s'.2 !! (o, T) = props h !! (o, T).
Proof.
  unfold TagShim.delete. unfold bind at 1.
  pose proof (getTag_state mA h k) as Hg.
  destruct (TagShim.getTag_ k (mA, h)) as [[tag|e] s1]; cbn in Hg; subst s1;
    [|by intros <-].
  unfold bind at 1. destruct (exists_state mA h tag) as [found ->].
  destruct (truthy found); cbn [negb]; [|by intros <-].
  unfold bind, TagShim.set_entries, TagShim.set_size, TagShim.this, modify, gets, ret. cbn.
  destruct k as [| | | | |o0]; cbn; intros <-; cbn; try done.
  split; [done|]. intros o T HT. rewrite lookup_delete_ne; [done|congruence].
Qed.

Lemma clear_props_frame mA h : props (TagShim.clear (mA, h)).2.2 = props h.
Proof. destruct (clear_result mA h) as (u & n & ->). reflexivity. Qed.
End TwoMaps.

(** X24.  Two tag-backed maps with different tags do not interfere on
    the objects they share: [set], [delete] and [clear] on one of them
    leave the other one with the entries it holds, so that its [get]
    returns what it returned before. *)
Theorem TagShim_maps_do_not_interfere
    {V W : Type} (mA : TagShim.Shim V) (mB : TagShim.Shim W) (h : Host)
    (dataB : list (JSValue * W)) (k : JSValue) (v : V) :
  Tagged.wf (mB, h) dataB →
  TagShim.tag_ mA ≠ TagShim.tag_ mB →
  let after_set := (TagShim.set k v (mA, h)).2.2 in
  let after_delete := (TagShim.delete k (mA, h)).2.2 in
  let after_clear := (TagShim.clear (mA, h)).2.2 in
  Tagged.wf (mB, after_set) dataB
  ∧ Tagged.wf (mB, after_delete) dataB
  ∧ Tagged.wf (mB, after_clear) dataB
  ∧ ∀ o, o ∉ inextensible h →
      (TagShim.get (VObj o) (mB, after_set)).1 = (TagShim.get (VObj o) (mB, h)).1
      ∧ (TagShim.get (VObj o) (mB, after_delete)).1 = (TagShim.get (VObj o) (mB, h)).1
      ∧ (TagShim.get (VObj o) (mB, after_clear)).1 = (TagShim.get (VObj o) (mB, h)).1.
Proof.
  intros Hwf HT after_set after_delete after_clear.
  destruct (set_frame mA h k v _ eq_refl) as [His Hps].
  destruct (delete_frame mA h k _ eq_refl) as [Hid Hpd].
  change (TagShim.set k v (mA, h)).2.2 with after_set in His, Hps.
  change (TagShim.delete k (mA, h)).2.2 with after_delete in Hid, Hpd.
  assert (inextensible after_clear = inextensible h ∧ props after_clear = props h)
    as [Hic Hpc].
  { subst after_clear. by destruct (clear_result mA h) as (u & n & ->). }
  clearbody after_set after_delete after_clear.
  assert (Tagged.wf (mB, after_set) dataB) as Hs.
  { apply (wf_props_ext mB h); [|exact Hwf]. intros o. apply Hps. congruence. }
  assert (Tagged.wf (mB, after_delete) dataB) as Hd.
  { apply (wf_props_ext mB h); [|exact Hwf]. intros o. apply Hpd. congruence. }
  assert (Tagged.wf (mB, after_clear) dataB) as Hc.
  { apply (wf_props_ext mB h); [|exact Hwf]. intros o. by rewrite Hpc. }
  split; [exact Hs|]. split; [exact Hd|]. split; [exact Hc|].
  intros o Ho.
  rewrite (wf_get _ _ _ Hwf o Ho).
  rewrite (wf_get _ _ _ Hs o) by (rewrite His; exact Ho).
  rewrite (wf_get _ _ _ Hd o) by (rewrite Hid; exact Ho).
  rewrite (wf_get _ _ _ Hc o) by (rewrite Hic; exact Ho).
  split; [reflexivity|]. split; reflexivity.
Qed.

Lemma TagShim_maps_do_not_interfere_witness :
  (TagShim.get (VObj 1)
     (Example2.one0.1,
      (TagShim.set (VObj 1) (VNum 9)
         (TagShim.mkShim [] "__ResizeObserverPolyfill_Map__1" 0 0, Example2.one0.2)).2.2)).1
  = (TagShim.get (VObj 1) Example2.one0).1.
Proof.
  destruct (TagShim_maps_do_not_interfere
              (TagShim.mkShim [] "__ResizeObserverPolyfill_Map__1" 0 0)
              Example2.one0.1 Example2.one0.2 [(VObj 1, VNum 7)] (VObj 1) (VNum 9))
    as (_ & _ & _ & Hg).
  - exact wf_one0.
  - vm_compute. discriminate.
  - exact (proj1 (Hg 1%positive (not_inextensible_one0 1))).
Defined.
